(** * react-compare-slider: the position synchronisation engine

    A shallow embedding of [src/ReactCompareSlider.tsx]: the positioning
    pass [updateInternalPosition], its callers (the prop effect, the pointer
    handlers, [handleResize]) and the effect that binds the [window]
    listeners while a drag is in progress.

    Numbers.  A JavaScript [number] is modelled as an exact rational ([Q]):
    [+], [-], [*], [/] are the field operations, [===] is [Qeq_bool],
    [Math.min]/[Math.max] are [Qmin]/[Qmax] and [v || 1] is [js_or v 1].
    Rounding, [NaN] and the infinities are outside the model; JavaScript's
    [/] agrees with [Qdiv] only on a non-zero divisor, so every statement
    below that goes through a division either proves the divisor non-zero
    or assumes it.  Equality of numbers is [==] ([Qeq]) throughout.

    Where a statement depends on rounding or on [NaN], the module [Binary64]
    has the same code on IEEE 754 binary64 floats, and the statement is
    settled there by evaluation. *)

From Stdlib Require Import QArith.QArith QArith.Qminmax micromega.Lqa.
From Stdlib Require Import Bool.Bool Arith.PeanoNat Lists.List micromega.Lia.
From Stdlib Require Import Floats.PrimFloat.
Import ListNotations.

Open Scope Q_scope.

(** ** JavaScript operators on numbers *)

(** [a === b] on two numbers. *)
Definition js_eq (a b : Q) : bool := Qeq_bool a b.

(** [v || d] on a number [v]: [0] is the only falsy rational. *)
Definition js_or (v d : Q) : Q := if js_eq v 0 then d else v.

Notation "a === b" := (js_eq a b) (at level 70, no associativity).

(** ** The DOM as the component reads and writes it *)

(** The four fields of [getBoundingClientRect()] the component destructures. *)
Module DOMRect.
Record t : Type := mk { top : Q; left : Q; width : Q; height : Q }.
End DOMRect.

(** [rootContainerRef.current]: its bounding rectangle (the rendered, scaled
    size) and its layout size ([offsetWidth], [offsetHeight]). *)
Record HTMLDivElement : Type := mkDiv {
  getBoundingClientRect : DOMRect.t;
  offsetWidth : Q;
  offsetHeight : Q
}.

(** The two scroll offsets read from [window]. *)
Record Window : Type := mkWindow { pageXOffset : Q; pageYOffset : Q }.

(** A component of [rect(...)]: [auto] or a pixel length. *)
Inductive Length : Type :=
| auto
| px (v : Q).

(** What a positioning pass does to the outside world, in program order:
    the [style.clip] of the clipped item, the [style.transform] of the handle
    container, and the call of the [onPositionChange] prop. *)
Inductive Effect : Type :=
| SetClip (top right bottom left : Length)      (* rect(top,right,bottom,left) *)
| SetTransform (tx ty tz : Q)                   (* translate3d(tx px,ty px,tz) *)
| OnPositionChange (position : Q).

(** What a pass reads: the root element, the window, and whether the host
    passed an [onPositionChange] callback. *)
Record Env : Type := mkEnv {
  rootContainerRef : HTMLDivElement;
  window : Window;
  onPositionChange : bool
}.

(** ** Component state *)

(** The cells of one mounted slider that the handlers read and write (the
    ref [hasWindowBinding], which only the binding effect touches, is kept
    with the window listeners in [Mounted] below). *)
Record Slider : Type := mkSlider {
  internalPositionPc : Q;      (* useRef(position) *)
  isDragging : bool;           (* useState(false) *)
  didSyncBounds : bool         (* useState(false) *)
}.

(** The state right after mount, for the [position] prop (default [50]). *)
Definition mount (position : Q) : Slider :=
  mkSlider position false false.

Definition setDidSyncBounds (b : bool) (s : Slider) : Slider :=
  mkSlider (internalPositionPc s) (isDragging s) b.

Definition setIsDragging (b : bool) (s : Slider) : Slider :=
  mkSlider (internalPositionPc s) b (didSyncBounds s).

Definition setInternalPositionPc (pc : Q) (s : Slider) : Slider :=
  mkSlider pc (isDragging s) (didSyncBounds s).

(** ** [updateInternalPosition] *)

(** [UpdateInternalPositionProps]; an absent [isOffset] is [false]. *)
Record UpdateInternalPositionProps : Type := mkArgs {
  x : Q;
  y : Q;
  isOffset : bool;
  portrait : bool;
  boundsPadding : Q
}.

Section Pass.

Variable e : Env.
Variable a : UpdateInternalPositionProps.

Let rect := getBoundingClientRect (rootContainerRef e).

(** The size along the active axis: [_portrait ? height : width]. *)
Definition extent : Q :=
  if portrait a then DOMRect.height rect else DOMRect.width rect.

(** The coordinate before clamping, container-relative. *)
Definition rawPx : Q :=
  if portrait a
  then if isOffset a
       then y a - DOMRect.top rect - pageYOffset (window e)
       else y a
  else if isOffset a
       then x a - DOMRect.left rect - pageXOffset (window e)
       else x a.

(** Pixel position clamped within the container's bounds. *)
Definition positionPx : Q := Qmin (Qmax rawPx 0) extent.

(** Width or height with CSS scaling accounted for. *)
Definition zoomScale : Q :=
  if portrait a
  then DOMRect.height rect / js_or (offsetHeight (rootContainerRef e)) 1
  else DOMRect.width rect / js_or (offsetWidth (rootContainerRef e)) 1.

Definition adjustedPosition : Q := positionPx / zoomScale.
Definition adjustedWidth : Q := DOMRect.width rect / zoomScale.
Definition adjustedHeight : Q := DOMRect.height rect / zoomScale.

(** [_portrait ? adjustedHeight : adjustedWidth]. *)
Definition adjustedExtent : Q :=
  if portrait a then adjustedHeight else adjustedWidth.

(** Internal position percentage without bounds. *)
Definition nextInternalPositionPc : Q :=
  (adjustedPosition / adjustedExtent) * 100.

(** Whether the current pixel position meets the min/max bounds. *)
Definition positionMeetsBounds : bool :=
  if portrait a
  then (adjustedPosition === 0) || (adjustedPosition === adjustedHeight)
  else (adjustedPosition === 0) || (adjustedPosition === adjustedWidth).

Definition canSkipPositionPc (s : Slider) : bool :=
  (nextInternalPositionPc === internalPositionPc s)
  && ((internalPositionPc s === 0) || (internalPositionPc s === 100)).

(** Pixel position clamped to extremities with bounds padding. *)
Definition clampedPx : Q :=
  Qmin (Qmax adjustedPosition (0 + boundsPadding a))
       (adjustedExtent - boundsPadding a).

(** The value assigned to [style.clip]. *)
Definition clipStyle : Effect :=
  if portrait a
  then SetClip auto auto (px clampedPx) auto
  else SetClip auto (px clampedPx) auto auto.

(** The value assigned to [style.transform]. *)
Definition transformStyle : Effect :=
  if portrait a
  then SetTransform 0 clampedPx 0
  else SetTransform clampedPx 0 0.

(** The early out on a zero-sized container. *)
Definition zeroGeometry : bool :=
  (DOMRect.width rect === 0) || (DOMRect.height rect === 0).

(** One positioning pass: the state after it and what it wrote and called.
    [didSyncBounds s] is the value the callback closed over; the re-render
    that [setDidSyncBounds] causes is taken to be complete before the next
    pass, so the next pass reads the value set here. *)
Definition updateInternalPosition (s : Slider) : Slider * list Effect :=
  if zeroGeometry then (s, [])
  else if didSyncBounds s && canSkipPositionPc s && positionMeetsBounds
  then (s, [])
  else
    let s1 := setDidSyncBounds true s in
    let s2 := setInternalPositionPc nextInternalPositionPc s1 in
    (s2,
     clipStyle :: transformStyle
     :: (if onPositionChange e
         then [OnPositionChange (internalPositionPc s2)]
         else [])).

End Pass.

(** ** The callers of the positioning pass *)

(** The props of the component that the engine reads. *)
Module Props.
Record t : Type := mk { portrait : bool; position : Q; boundsPadding : Q }.
End Props.

(** The coordinates a handler takes from a [MouseEvent] ([ev.pageX]) or from
    the first touch of a [TouchEvent] ([ev.touches[0].pageX]). *)
Record PointerEvent : Type := mkPointer { pageX : Q; pageY : Q }.

(** The argument of the resize observer's handler. *)
Module UseResizeObserverHandlerParams.
Record t : Type := mk { width : Q; height : Q }.
End UseResizeObserverHandlerParams.

Section Handlers.

Variable e : Env.
Variable p : Props.t.

Let rect := getBoundingClientRect (rootContainerRef e).

(** The effect that runs when [portrait], [position], [boundsPadding] or
    the pass itself changes; [prevPropPosition] is [None] while
    [usePrevious] has nothing to return. *)
Definition propsEffect (prevPropPosition : option Q) (s : Slider)
  : Slider * list Effect :=
  let nextPosition :=
    if match prevPropPosition with
       | Some prev => Props.position p === prev
       | None => false
       end
    then internalPositionPc s
    else Props.position p in
  updateInternalPosition e
    (mkArgs ((DOMRect.width rect / 100) * nextPosition)
            ((DOMRect.height rect / 100) * nextPosition)
            false (Props.portrait p) (Props.boundsPadding p))
    s.

(** The arguments both pointer handlers pass on. *)
Definition pointerArgs (ev : PointerEvent) : UpdateInternalPositionProps :=
  mkArgs (pageX ev) (pageY ev) true (Props.portrait p) (Props.boundsPadding p).

(** Handle mouse/touch down ([ev.preventDefault()] touches nothing the
    engine reads). *)
Definition handlePointerDown (ev : PointerEvent) (s : Slider)
  : Slider * list Effect :=
  let (s1, fx) := updateInternalPosition e (pointerArgs ev) s in
  (setIsDragging true s1, fx).

(** Handle mouse/touch move. *)
Definition handlePointerMove (ev : PointerEvent) (s : Slider)
  : Slider * list Effect :=
  updateInternalPosition e (pointerArgs ev) s.

(** Handle mouse/touch up. *)
Definition handlePointerUp (s : Slider) : Slider := setIsDragging false s.


(** The arguments [handleResize] passes on, and [None] when the observed
    width or height is [0]: the handler divides by them, JavaScript's
    division then gives [NaN], and the rationals have no [NaN]
    ([Binary64.resizeArgs] has that case). *)
Definition resizeArgs (r : UseResizeObserverHandlerParams.t) (s : Slider)
  : option UpdateInternalPositionProps :=
  let scaledWidth := DOMRect.width rect in
  let scaledHeight := DOMRect.height rect in
  let width := UseResizeObserverHandlerParams.width r in
  let height := UseResizeObserverHandlerParams.height r in
  if (width === 0) || (height === 0) then None
  else
    Some (mkArgs
            (((width / 100) * internalPositionPc s * scaledWidth) / width)
            (((height / 100) * internalPositionPc s * scaledHeight) / height)
            false (Props.portrait p) (Props.boundsPadding p)).

(** Resync internal position on resize. *)
Definition handleResize (r : UseResizeObserverHandlerParams.t) (s : Slider)
  : option (Slider * list Effect) :=
  match resizeArgs r s with
  | Some a => Some (updateInternalPosition e a s)
  | None => None
  end.

End Handlers.


(** The layout size along the active axis, after [|| 1]. *)
Definition layoutExtent (e : Env) (a : UpdateInternalPositionProps) : Q :=
  if portrait a
  then js_or (offsetHeight (rootContainerRef e)) 1
  else js_or (offsetWidth (rootContainerRef e)) 1.

(** ** Sequences of passes *)

(** A sequence of calls of the pass, each with the geometry it reads and its
    arguments; the effects are collected in program order. *)
Fixpoint run (calls : list (Env * UpdateInternalPositionProps)) (s : Slider)
  : Slider * list Effect :=
  match calls with
  | [] => (s, [])
  | (e, a) :: rest =>
      let (s1, fx1) := updateInternalPosition e a s in
      let (s2, fx2) := run rest s1 in
      (s2, fx1 ++ fx2)
  end.

(** The condition of the second early out of the pass. *)
Definition suppressed (e : Env) (a : UpdateInternalPositionProps) (s : Slider)
  : bool :=
  didSyncBounds s && canSkipPositionPc e a s && positionMeetsBounds e a.

(** A pass that changed nothing: the percentage is the one before, nothing was
    written and nothing was notified. *)
Definition noop (s : Slider) (r : Slider * list Effect) : Prop :=
  internalPositionPc (fst r) = internalPositionPc s /\ snd r = [].

Definition inRange (s : Slider) : Prop :=
  0 <= internalPositionPc s /\ internalPositionPc s <= 100.


(** ** The output projector as the specification words it *)

(** [clamp(v, lo, hi)]. *)
Definition clamp (v lo hi : Q) : Q := Qmin (Qmax v lo) hi.


(** ** Comparing effects up to the value of the numbers *)

Definition Length_eqb (l1 l2 : Length) : bool :=
  match l1, l2 with
  | auto, auto => true
  | px u, px v => u === v
  | _, _ => false
  end.

Definition Effect_eqb (f1 f2 : Effect) : bool :=
  match f1, f2 with
  | SetClip t1 r1 b1 l1, SetClip t2 r2 b2 l2 =>
      Length_eqb t1 t2 && Length_eqb r1 r2 && Length_eqb b1 b2 && Length_eqb l1 l2
  | SetTransform u1 v1 w1, SetTransform u2 v2 w2 =>
      (u1 === u2) && (v1 === v2) && (w1 === w2)
  | OnPositionChange u, OnPositionChange v => u === v
  | _, _ => false
  end.

Fixpoint Effects_eqb (l1 l2 : list Effect) : bool :=
  match l1, l2 with
  | [], [] => true
  | f1 :: r1, f2 :: r2 => Effect_eqb f1 f2 && Effects_eqb r1 r2
  | _, _ => false
  end.

(** The same geometry with another layout size. *)
Definition withLayout (e : Env) (ow oh : Q) : Env :=
  mkEnv (mkDiv (getBoundingClientRect (rootContainerRef e)) ow oh)
        (window e) (onPositionChange e).

(** A container at the page origin, not scaled, not scrolled, with an
    [onPositionChange] callback. *)
Definition plainContainer (w h : Q) : Env :=
  mkEnv (mkDiv (DOMRect.mk 0 0 w h) w h) (mkWindow 0 0) true.

(** ** The window binding (the effect on [isDragging]) *)

Inductive EventType : Type := mousemove | mouseup | touchmove | touchend.

(** The identity of a listener function.  [handlePointerMove] is re-created
    by [useCallback] whenever [portrait], [boundsPadding] or the pass
    changes, so each render sees some version of it; [handlePointerUp] has no
    dependencies and is one function for the life of the component. *)
Inductive Listener : Type :=
| HandlePointerMove (version : nat)
| HandlePointerUp.

Definition Registration : Type := (EventType * Listener)%type.

Definition EventType_eqb (t1 t2 : EventType) : bool :=
  match t1, t2 with
  | mousemove, mousemove | mouseup, mouseup
  | touchmove, touchmove | touchend, touchend => true
  | _, _ => false
  end.

Definition Listener_eqb (l1 l2 : Listener) : bool :=
  match l1, l2 with
  | HandlePointerMove v1, HandlePointerMove v2 => Nat.eqb v1 v2
  | HandlePointerUp, HandlePointerUp => true
  | _, _ => false
  end.

Definition Registration_eqb (r1 r2 : Registration) : bool :=
  EventType_eqb (fst r1) (fst r2) && Listener_eqb (snd r1) (snd r2).

(** [window.addEventListener(type, listener, options)]: a listener that is
    already registered for the type is not registered a second time. *)
Definition addEventListener (r : Registration) (l : list Registration)
  : list Registration :=
  if existsb (Registration_eqb r) l then l else l ++ [r].

(** [window.removeEventListener(type, listener)]: nothing happens when the
    listener is not registered. *)
Definition removeEventListener (r : Registration) (l : list Registration)
  : list Registration :=
  filter (fun r' => negb (Registration_eqb r r')) l.

(** The calls made on [window], in program order. *)
Inductive WindowCall : Type :=
| AddEventListener (r : Registration)
| RemoveEventListener (r : Registration).

(** The four registrations of the effect, for the [handlePointerMove] of the
    render the effect belongs to. *)
Definition bindings (version : nat) : list Registration :=
  [ (mousemove, HandlePointerMove version);
    (mouseup, HandlePointerUp);
    (touchmove, HandlePointerMove version);
    (touchend, HandlePointerUp) ].

(** A mounted component as the binding effect sees it: the slider's cells,
    the ref [hasWindowBinding], the listeners [window] holds, and the
    dependencies [[handlePointerMove, handlePointerUp, isDragging]] of the
    last run of the effect ([None] before its first run), whose cleanup
    closes over that [handlePointerMove]. *)
Record Mounted : Type := mkMounted {
  slider : Slider;
  hasWindowBinding : bool;
  windowListeners : list Registration;
  effectDeps : option (nat * bool)
}.

(** The body of the effect in a render whose [handlePointerMove] is
    [version]. *)
Definition bindingEffect (version : nat) (m : Mounted)
  : Mounted * list WindowCall :=
  if isDragging (slider m) && negb (hasWindowBinding m)
  then (mkMounted (slider m) true
          (fold_left (fun l r => addEventListener r l) (bindings version)
                     (windowListeners m))
          (effectDeps m),
        map AddEventListener (bindings version))
  else (m, []).

(** The cleanup the effect returned in the render whose [handlePointerMove]
    was [version]. *)
Definition bindingCleanup (version : nat) (m : Mounted)
  : Mounted * list WindowCall :=
  if hasWindowBinding m
  then (mkMounted (slider m) false
          (fold_left (fun l r => removeEventListener r l) (bindings version)
                     (windowListeners m))
          (effectDeps m),
        map RemoveEventListener (bindings version))
  else (m, []).

Definition deps_eqb (d1 d2 : nat * bool) : bool :=
  Nat.eqb (fst d1) (fst d2) && Bool.eqb (snd d1) (snd d2).

(** What React does with the effect when a render is committed in which
    [handlePointerMove] is [version]: nothing when the dependencies are
    those of the last run; otherwise the cleanup of the last run, then the
    body. *)
Definition commit (version : nat) (m : Mounted) : Mounted * list WindowCall :=
  let deps := (version, isDragging (slider m)) in
  match effectDeps m with
  | Some last =>
      if deps_eqb last deps then (m, [])
      else
        let (m1, calls1) := bindingCleanup (fst last) m in
        let (m2, calls2) := bindingEffect version m1 in
        (mkMounted (slider m2) (hasWindowBinding m2) (windowListeners m2)
                   (Some deps),
         calls1 ++ calls2)
  | None =>
      let (m2, calls2) := bindingEffect version m in
      (mkMounted (slider m2) (hasWindowBinding m2) (windowListeners m2)
                 (Some deps),
       calls2)
  end.

(** The component after its first render and the first run of its effects. *)
Definition mounted (position : Q) (version : nat) : Mounted :=
  fst (commit version (mkMounted (mount position) false [] None)).

(** An event as the binding effect sees it: handlers ran and changed the
    slider's cells by [handler], then a render was committed in which
    [handlePointerMove] is [version]. *)
Record Event : Type := mkEvent {
  handler : Slider -> Slider;
  version : nat
}.

(** A mouse-down or touch-start on the interactive target. *)
Definition pointerDown (e : Env) (p : Props.t) (ev : PointerEvent) (v : nat)
  : Event :=
  mkEvent (fun s => fst (handlePointerDown e p ev s)) v.

(** A mouse-up or touch-end. *)
Definition pointerUp (v : nat) : Event := mkEvent handlePointerUp v.


(** A move while the pointer is down. *)
Definition pointerMove (e : Env) (p : Props.t) (ev : PointerEvent) (v : nat)
  : Event :=
  mkEvent (fun s => fst (handlePointerMove e p ev s)) v.

Definition step (ev : Event) (m : Mounted) : Mounted * list WindowCall :=
  commit (version ev)
         (mkMounted (handler ev (slider m)) (hasWindowBinding m)
                    (windowListeners m) (effectDeps m)).

Fixpoint steps (evs : list Event) (m : Mounted) : Mounted * list WindowCall :=
  match evs with
  | [] => (m, [])
  | ev :: rest =>
      let (m1, calls1) := step ev m in
      let (m2, calls2) := steps rest m1 in
      (m2, calls1 ++ calls2)
  end.

(** Unmounting runs the cleanup of the last run of the effect. *)
Definition unmount (m : Mounted) : Mounted * list WindowCall :=
  match effectDeps m with
  | Some last => bindingCleanup (fst last) m
  | None => (m, [])
  end.

(** The calls the binding lifecycle prescribes for a step: the four
    registrations on the way
    into dragging, the four removals on the way out, nothing while idle, and
    while dragging nothing unless [handlePointerMove] was re-created, in
    which case the old listeners are removed and the new ones added. *)
Definition expectedCalls (bound : nat) (before after : bool) (v : nat)
  : list WindowCall :=
  match before, after with
  | false, true => map AddEventListener (bindings v)
  | true, false => map RemoveEventListener (bindings bound)
  | false, false => []
  | true, true =>
      if Nat.eqb bound v then []
      else map RemoveEventListener (bindings bound)
           ++ map AddEventListener (bindings v)
  end.

(** What holds of the binding between two events: the effect last ran with
    the current [isDragging] and the [handlePointerMove] version [bound], the
    ref says whether a drag is in progress, and [window] holds the four
    listeners of that version while dragging and none while idle. *)
Definition bindingInvariant (bound : nat) (m : Mounted) : Prop :=
  effectDeps m = Some (bound, isDragging (slider m))
  /\ hasWindowBinding m = isDragging (slider m)
  /\ windowListeners m = (if isDragging (slider m) then bindings bound else []).

(** ** What a sequence of passes did *)

(** Whether a pass gets past both early outs. *)
Definition carriedOut (e : Env) (a : UpdateInternalPositionProps) (s : Slider)
  : bool :=
  negb (zeroGeometry e) && negb (suppressed e a s).

(** The number of passes of a sequence that get past both early outs. *)
Fixpoint countCarriedOut (calls : list (Env * UpdateInternalPositionProps))
  (s : Slider) : nat :=
  match calls with
  | [] => 0%nat
  | (e, a) :: rest =>
      ((if carriedOut e a s then 1 else 0)
       + countCarriedOut rest (fst (updateInternalPosition e a s)))%nat
  end.

(** The number of those whose host passed an [onPositionChange]. *)
Fixpoint countNotified (calls : list (Env * UpdateInternalPositionProps))
  (s : Slider) : nat :=
  match calls with
  | [] => 0%nat
  | (e, a) :: rest =>
      ((if carriedOut e a s && onPositionChange e then 1 else 0)
       + countNotified rest (fst (updateInternalPosition e a s)))%nat
  end.

Definition isClip (f : Effect) : bool :=
  match f with SetClip _ _ _ _ => true | _ => false end.

Definition isTransform (f : Effect) : bool :=
  match f with SetTransform _ _ _ => true | _ => false end.

Definition isNotification (f : Effect) : bool :=
  match f with OnPositionChange _ => true | _ => false end.

(** The arguments of the calls of [onPositionChange], in order. *)
Fixpoint notifications (fx : list Effect) : list Q :=
  match fx with
  | [] => []
  | OnPositionChange v :: rest => v :: notifications rest
  | _ :: rest => notifications rest
  end.

(** ** Counting the calls on [window] *)

Definition isAdd (c : WindowCall) : bool :=
  match c with AddEventListener _ => true | RemoveEventListener _ => false end.

Definition isRemove (c : WindowCall) : bool :=
  match c with AddEventListener _ => false | RemoveEventListener _ => true end.

(** ** Hover mode (the effect on [changePositionOnHover]) *)

Module Hover.

Inductive EventType : Type := mousemove | mouseleave.

(** The listeners the effect puts on the container.  [handleMouseLeave] is
    a function made anew in every run of the effect; it is identified by the
    number of the run and carries the [isDragging] it closed over. *)
Inductive Listener : Type :=
| HandlePointerMove (version : nat)
| HandleMouseLeave (run : nat) (dragging : bool).

Definition Registration : Type := (EventType * Listener)%type.

Definition EventType_eqb (t1 t2 : EventType) : bool :=
  match t1, t2 with
  | mousemove, mousemove | mouseleave, mouseleave => true
  | _, _ => false
  end.

Definition Listener_eqb (l1 l2 : Listener) : bool :=
  match l1, l2 with
  | HandlePointerMove v1, HandlePointerMove v2 => Nat.eqb v1 v2
  | HandleMouseLeave n1 d1, HandleMouseLeave n2 d2 =>
      Nat.eqb n1 n2 && Bool.eqb d1 d2
  | _, _ => false
  end.

Definition Registration_eqb (r1 r2 : Registration) : bool :=
  EventType_eqb (fst r1) (fst r2) && Listener_eqb (snd r1) (snd r2).

(** [containerRef.addEventListener]. *)
Definition addEventListener (r : Registration) (l : list Registration)
  : list Registration :=
  if existsb (Registration_eqb r) l then l else l ++ [r].

(** [containerRef.removeEventListener]. *)
Definition removeEventListener (r : Registration) (l : list Registration)
  : list Registration :=
  filter (fun r' => negb (Registration_eqb r r')) l.

Inductive ContainerCall : Type :=
| AddEventListener (r : Registration)
| RemoveEventListener (r : Registration).

(** The dependencies of the effect that vary ([handlePointerUp] is one
    function for the life of the component). *)
Record Deps : Type := mkDeps {
  changePositionOnHover : bool;
  handlePointerMove : nat;
  isDragging : bool
}.

Definition Deps_eqb (d1 d2 : Deps) : bool :=
  Bool.eqb (changePositionOnHover d1) (changePositionOnHover d2)
  && Nat.eqb (handlePointerMove d1) (handlePointerMove d2)
  && Bool.eqb (isDragging d1) (isDragging d2).

(** The listeners of the effect on the container, and the last run of the
    effect: its dependencies and its number. *)
Record Container : Type := mkContainer {
  listeners : list Registration;
  lastRun : option (Deps * nat)
}.

(** The two registrations of a run. *)
Definition pair (d : Deps) (n : nat) : list Registration :=
  [ (mousemove, HandlePointerMove (handlePointerMove d));
    (mouseleave, HandleMouseLeave n (isDragging d)) ].

(** The body of the effect in its [n]-th run. *)
Definition effect (d : Deps) (n : nat) (c : Container)
  : Container * list ContainerCall :=
  if changePositionOnHover d
  then (mkContainer
          (fold_left (fun l r => addEventListener r l) (pair d n) (listeners c))
          (Some (d, n)),
        map AddEventListener (pair d n))
  else (mkContainer (listeners c) (Some (d, n)), []).

(** The cleanup of the [n]-th run: it removes both listeners whether or not
    they were added. *)
Definition cleanup (d : Deps) (n : nat) (c : Container)
  : Container * list ContainerCall :=
  (mkContainer
     (fold_left (fun l r => removeEventListener r l) (pair d n) (listeners c))
     (lastRun c),
   map RemoveEventListener (pair d n)).

(** A committed render with the dependencies [d]. *)
Definition commit (d : Deps) (c : Container) : Container * list ContainerCall :=
  match lastRun c with
  | Some (d0, n0) =>
      if Deps_eqb d0 d then (c, [])
      else
        let (c1, calls1) := cleanup d0 n0 c in
        let (c2, calls2) := effect d (S n0) c1 in
        (c2, calls1 ++ calls2)
  | None => effect d 0 c
  end.

Fixpoint commits (ds : list Deps) (c : Container)
  : Container * list ContainerCall :=
  match ds with
  | [] => (c, [])
  | d :: rest =>
      let (c1, calls1) := commit d c in
      let (c2, calls2) := commits rest c1 in
      (c2, calls1 ++ calls2)
  end.

(** Unmounting runs the cleanup of the last run. *)
Definition unmount (c : Container) : Container * list ContainerCall :=
  match lastRun c with
  | Some (d0, n0) => cleanup d0 n0 c
  | None => (c, [])
  end.

(** Between two renders: the effect last ran with the dependencies [d], and
    the container holds the two listeners of that run in hover mode and none
    otherwise. *)
Definition invariant (d : Deps) (n : nat) (c : Container) : Prop :=
  lastRun c = Some (d, n)
  /\ listeners c = (if changePositionOnHover d then pair d n else []).

End Hover.

(** ** The same code on IEEE 754 binary64 numbers

    JavaScript's [number] is a binary64 float.  The module below is the
    positioning pass and its callers once more, on Rocq's primitive binary64
    floats: the arithmetic rounds as JavaScript's does, [NaN] and the
    infinities are there, [===] is the IEEE equality, [Math.max] and
    [Math.min] propagate [NaN], and [v || 1] takes [0], [-0] and [NaN] as
    falsy.  It is used where a statement depends on rounding or on [NaN];
    statements about it are proved by evaluation. *)

Module Binary64.

Local Open Scope float_scope.

(** [a === b] on two numbers. *)
Definition js_eq (a b : float) : bool := a =? b.

(** [v || d] on a number [v]: [0], [-0] and [NaN] are falsy. *)
Definition js_or (v d : float) : float :=
  if (v =? 0) || is_nan v then d else v.

(** [Math.max(a, b)]: [NaN] if either is; of the two zeros, [+0]. *)
Definition Math_max (a b : float) : float :=
  if is_nan a || is_nan b then nan
  else if a <? b then b
  else if b <? a then a
  else if get_sign a then b else a.

(** [Math.min(a, b)]: [NaN] if either is; of the two zeros, [-0]. *)
Definition Math_min (a b : float) : float :=
  if is_nan a || is_nan b then nan
  else if a <? b then a
  else if b <? a then b
  else if get_sign a then a else b.

Module DOMRect.
Record t : Type := mk { top : float; left : float; width : float; height : float }.
End DOMRect.

Record HTMLDivElement : Type := mkDiv {
  getBoundingClientRect : DOMRect.t;
  offsetWidth : float;
  offsetHeight : float
}.

Record Window : Type := mkWindow { pageXOffset : float; pageYOffset : float }.

Inductive Length : Type :=
| auto
| px (v : float).

Inductive Effect : Type :=
| SetClip (top right bottom left : Length)
| SetTransform (tx ty tz : float)
| OnPositionChange (position : float).

Record Env : Type := mkEnv {
  rootContainerRef : HTMLDivElement;
  window : Window;
  onPositionChange : bool
}.

Record Slider : Type := mkSlider {
  internalPositionPc : float;
  isDragging : bool;
  didSyncBounds : bool
}.

Definition mount (position : float) : Slider := mkSlider position false false.

Definition setDidSyncBounds (b : bool) (s : Slider) : Slider :=
  mkSlider (internalPositionPc s) (isDragging s) b.

Definition setIsDragging (b : bool) (s : Slider) : Slider :=
  mkSlider (internalPositionPc s) b (didSyncBounds s).

Definition setInternalPositionPc (pc : float) (s : Slider) : Slider :=
  mkSlider pc (isDragging s) (didSyncBounds s).

Record UpdateInternalPositionProps : Type := mkArgs {
  x : float;
  y : float;
  isOffset : bool;
  portrait : bool;
  boundsPadding : float
}.

Section Pass.

Variable e : Env.
Variable a : UpdateInternalPositionProps.

Let rect := getBoundingClientRect (rootContainerRef e).

Definition extent : float :=
  if portrait a then DOMRect.height rect else DOMRect.width rect.

Definition rawPx : float :=
  if portrait a
  then if isOffset a
       then y a - DOMRect.top rect - pageYOffset (window e)
       else y a
  else if isOffset a
       then x a - DOMRect.left rect - pageXOffset (window e)
       else x a.

Definition positionPx : float := Math_min (Math_max rawPx 0) extent.

Definition zoomScale : float :=
  if portrait a
  then DOMRect.height rect / js_or (offsetHeight (rootContainerRef e)) 1
  else DOMRect.width rect / js_or (offsetWidth (rootContainerRef e)) 1.

Definition adjustedPosition : float := positionPx / zoomScale.
Definition adjustedWidth : float := DOMRect.width rect / zoomScale.
Definition adjustedHeight : float := DOMRect.height rect / zoomScale.

Definition adjustedExtent : float :=
  if portrait a then adjustedHeight else adjustedWidth.

Definition nextInternalPositionPc : float :=
  (adjustedPosition / adjustedExtent) * 100.

Definition positionMeetsBounds : bool :=
  if portrait a
  then js_eq adjustedPosition 0 || js_eq adjustedPosition adjustedHeight
  else js_eq adjustedPosition 0 || js_eq adjustedPosition adjustedWidth.

Definition canSkipPositionPc (s : Slider) : bool :=
  js_eq nextInternalPositionPc (internalPositionPc s)
  && (js_eq (internalPositionPc s) 0 || js_eq (internalPositionPc s) 100).

Definition clampedPx : float :=
  Math_min (Math_max adjustedPosition (0 + boundsPadding a))
           (adjustedExtent - boundsPadding a).

Definition clipStyle : Effect :=
  if portrait a
  then SetClip auto auto (px clampedPx) auto
  else SetClip auto (px clampedPx) auto auto.

Definition transformStyle : Effect :=
  if portrait a
  then SetTransform 0 clampedPx 0
  else SetTransform clampedPx 0 0.

Definition zeroGeometry : bool :=
  js_eq (DOMRect.width rect) 0 || js_eq (DOMRect.height rect) 0.

Definition updateInternalPosition (s : Slider) : Slider * list Effect :=
  if zeroGeometry then (s, [])
  else if didSyncBounds s && canSkipPositionPc s && positionMeetsBounds
  then (s, [])
  else
    let s1 := setDidSyncBounds true s in
    let s2 := setInternalPositionPc nextInternalPositionPc s1 in
    (s2,
     clipStyle :: transformStyle
     :: (if onPositionChange e
         then [OnPositionChange (internalPositionPc s2)]
         else [])).

End Pass.

Module Props.
Record t : Type := mk { portrait : bool; position : float; boundsPadding : float }.
End Props.

Record PointerEvent : Type := mkPointer { pageX : float; pageY : float }.

Module UseResizeObserverHandlerParams.
Record t : Type := mk { width : float; height : float }.
End UseResizeObserverHandlerParams.

Section Handlers.

Variable e : Env.
Variable p : Props.t.

Let rect := getBoundingClientRect (rootContainerRef e).

Definition propsEffect (prevPropPosition : option float) (s : Slider)
  : Slider * list Effect :=
  let nextPosition :=
    if match prevPropPosition with
       | Some prev => js_eq (Props.position p) prev
       | None => false
       end
    then internalPositionPc s
    else Props.position p in
  updateInternalPosition e
    (mkArgs ((DOMRect.width rect / 100) * nextPosition)
            ((DOMRect.height rect / 100) * nextPosition)
            false (Props.portrait p) (Props.boundsPadding p))
    s.

Definition pointerArgs (ev : PointerEvent) : UpdateInternalPositionProps :=
  mkArgs (pageX ev) (pageY ev) true (Props.portrait p) (Props.boundsPadding p).

Definition handlePointerDown (ev : PointerEvent) (s : Slider)
  : Slider * list Effect :=
  let (s1, fx) := updateInternalPosition e (pointerArgs ev) s in
  (setIsDragging true s1, fx).

Definition handlePointerMove (ev : PointerEvent) (s : Slider)
  : Slider * list Effect :=
  updateInternalPosition e (pointerArgs ev) s.

Definition resizeArgs (r : UseResizeObserverHandlerParams.t) (s : Slider)
  : UpdateInternalPositionProps :=
  let scaledWidth := DOMRect.width rect in
  let scaledHeight := DOMRect.height rect in
  let width := UseResizeObserverHandlerParams.width r in
  let height := UseResizeObserverHandlerParams.height r in
  mkArgs
    (((width / 100) * internalPositionPc s * scaledWidth) / width)
    (((height / 100) * internalPositionPc s * scaledHeight) / height)
    false (Props.portrait p) (Props.boundsPadding p).

Definition handleResize (r : UseResizeObserverHandlerParams.t) (s : Slider)
  : Slider * list Effect :=
  updateInternalPosition e (resizeArgs r s) s.

End Handlers.

(** A container at the page origin, not scaled, not scrolled, with an
    [onPositionChange] callback. *)
Definition plainContainer (w h : float) : Env :=
  mkEnv (mkDiv (DOMRect.mk 0 0 w h) w h) (mkWindow 0 0) true.

End Binary64.
(** ** Arithmetic of the pass *)

Lemma js_eq_iff (u v : Q) : (u === v) = true <-> u == v.
Proof. unfold js_eq. apply Qeq_bool_iff. Qed.

Lemma js_eq_false_iff (u v : Q) : (u === v) = false <-> ~ u == v.
Proof.
  rewrite <- js_eq_iff. destruct (u === v); split; intro H; try discriminate; auto.
  exfalso; apply H; reflexivity.
Qed.

Lemma js_or_nonzero (v : Q) : ~ js_or v 1 == 0.
Proof.
  unfold js_or. destruct (v === 0) eqn:E.
  - intro H; discriminate H.
  - now apply js_eq_false_iff.
Qed.

(** [Math.max] and [Math.min] by cases, in the form [lra] can use. *)
Lemma Qmax_cases (u v : Q) :
  (u <= v /\ Qmax u v == v) \/ (v <= u /\ Qmax u v == u).
Proof.
  destruct (Q.max_spec u v) as [[H1 H2] | [H1 H2]]; [left | right]; split;
    auto; lra.
Qed.

Lemma Qmin_cases (u v : Q) :
  (u <= v /\ Qmin u v == u) \/ (v <= u /\ Qmin u v == v).
Proof.
  destruct (Q.min_spec u v) as [[H1 H2] | [H1 H2]]; [left | right]; split;
    auto; lra.
Qed.

(** Replaces every [Qmin] and [Qmax] of the goal by a fresh number with its
    defining inequalities. *)
Ltac minmax :=
  repeat match goal with
    | |- context [Qmax ?u ?v] =>
        let m := fresh "m" in
        let Hm := fresh "Hm" in
        destruct (Qmax_cases u v) as [Hm | Hm];
        revert Hm; generalize (Qmax u v); intros m Hm
    | |- context [Qmin ?u ?v] =>
        let m := fresh "m" in
        let Hm := fresh "Hm" in
        destruct (Qmin_cases u v) as [Hm | Hm];
        revert Hm; generalize (Qmin u v); intros m Hm
    end.

Lemma clamp_between (v lo hi : Q) :
  lo <= hi -> lo <= Qmin (Qmax v lo) hi /\ Qmin (Qmax v lo) hi <= hi.
Proof. intro H. minmax; lra. Qed.

Lemma div_between (u v : Q) :
  0 < v -> 0 <= u -> u <= v -> 0 <= u / v * 100 /\ u / v * 100 <= 100.
Proof.
  intros Hv H0 H1.
  assert (0 <= u / v) by (apply Qle_shift_div_l; lra).
  assert (u / v <= 1) by (apply Qle_shift_div_r; lra).
  lra.
Qed.

Section PassFacts.

Variable e : Env.
Variable a : UpdateInternalPositionProps.

Hypothesis nonzero : zeroGeometry e = false.

Lemma width_nonzero : ~ DOMRect.width (getBoundingClientRect (rootContainerRef e)) == 0.
Proof.
  unfold zeroGeometry in nonzero. apply orb_false_iff in nonzero.
  apply js_eq_false_iff, nonzero.
Qed.

Lemma height_nonzero : ~ DOMRect.height (getBoundingClientRect (rootContainerRef e)) == 0.
Proof.
  unfold zeroGeometry in nonzero. apply orb_false_iff in nonzero.
  apply js_eq_false_iff, nonzero.
Qed.

Lemma extent_nonzero : ~ extent e a == 0.
Proof.
  unfold extent. destruct (portrait a);
    [apply height_nonzero | apply width_nonzero].
Qed.

Lemma layoutExtent_nonzero : ~ layoutExtent e a == 0.
Proof. unfold layoutExtent. destruct (portrait a); apply js_or_nonzero. Qed.

Lemma zoomScale_eq : zoomScale e a == extent e a / layoutExtent e a.
Proof. unfold zoomScale, extent, layoutExtent. destruct (portrait a); reflexivity. Qed.

Lemma zoomScale_nonzero : ~ zoomScale e a == 0.
Proof.
  rewrite zoomScale_eq. intro H.
  pose proof extent_nonzero. pose proof layoutExtent_nonzero.
  apply H0. 
  setoid_replace (extent e a) with (extent e a / layoutExtent e a * layoutExtent e a)
    by (field; assumption).
  rewrite H. ring.
Qed.

(** The scale-corrected extent is the layout extent. *)
Lemma adjustedExtent_eq : adjustedExtent e a == layoutExtent e a.
Proof.
  pose proof extent_nonzero as He. pose proof layoutExtent_nonzero as Hl.
  pose proof zoomScale_nonzero as Hz. pose proof zoomScale_eq as Ez.
  unfold adjustedExtent, adjustedHeight, adjustedWidth.
  unfold extent in *.
  destruct (portrait a); rewrite Ez; field; split; assumption.
Qed.

Lemma adjustedExtent_nonzero : ~ adjustedExtent e a == 0.
Proof. rewrite adjustedExtent_eq. apply layoutExtent_nonzero. Qed.

Lemma adjustedPosition_eq :
  adjustedPosition e a == positionPx e a * layoutExtent e a / extent e a.
Proof.
  pose proof extent_nonzero. pose proof layoutExtent_nonzero.
  unfold adjustedPosition. rewrite zoomScale_eq. field. split; assumption.
Qed.

(** The zoom scale cancels in the percentage. *)
Lemma nextInternalPositionPc_eq :
  nextInternalPositionPc e a == positionPx e a / extent e a * 100.
Proof.
  pose proof extent_nonzero. pose proof layoutExtent_nonzero.
  unfold nextInternalPositionPc.
  rewrite adjustedExtent_eq, adjustedPosition_eq. field. split; assumption.
Qed.

End PassFacts.

Lemma updateInternalPosition_zero e a s :
  zeroGeometry e = true -> updateInternalPosition e a s = (s, []).
Proof. intro H. unfold updateInternalPosition. now rewrite H. Qed.

Lemma updateInternalPosition_suppressed e a s :
  zeroGeometry e = false -> suppressed e a s = true ->
  updateInternalPosition e a s = (s, []).
Proof.
  intros Hz H. unfold updateInternalPosition, suppressed in *.
  now rewrite Hz, H.
Qed.

Lemma updateInternalPosition_applied e a s :
  zeroGeometry e = false -> suppressed e a s = false ->
  updateInternalPosition e a s =
    (mkSlider (nextInternalPositionPc e a) (isDragging s) true,
     clipStyle e a :: transformStyle e a
     :: (if onPositionChange e
         then [OnPositionChange (nextInternalPositionPc e a)] else [])).
Proof.
  intros Hz H. unfold updateInternalPosition, suppressed in *.
  now rewrite Hz, H.
Qed.

Lemma suppressed_iff e a s :
  suppressed e a s = true <->
  didSyncBounds s = true
  /\ nextInternalPositionPc e a == internalPositionPc s
  /\ (internalPositionPc s == 0 \/ internalPositionPc s == 100)
  /\ (adjustedPosition e a == 0 \/ adjustedPosition e a == adjustedExtent e a).
Proof.
  unfold suppressed, canSkipPositionPc, positionMeetsBounds, adjustedExtent.
  rewrite !andb_true_iff, orb_true_iff.
  destruct (portrait a); rewrite orb_true_iff, !js_eq_iff; tauto.
Qed.

Lemma positionPx_between e a :
  0 < extent e a -> 0 <= positionPx e a /\ positionPx e a <= extent e a.
Proof. intro H. unfold positionPx. apply clamp_between. lra. Qed.

Lemma positionPx_negative_extent e a :
  extent e a < 0 -> positionPx e a == extent e a.
Proof. intro H. unfold positionPx. minmax; lra. Qed.

Lemma positionPx_far_edge e a :
  extent e a <= rawPx e a -> positionPx e a == extent e a.
Proof. intro H. unfold positionPx. minmax; lra. Qed.

Lemma nextInternalPositionPc_between e a :
  zeroGeometry e = false ->
  0 <= nextInternalPositionPc e a /\ nextInternalPositionPc e a <= 100.
Proof.
  intro Hz. rewrite (nextInternalPositionPc_eq e a Hz).
  pose proof (extent_nonzero e a Hz) as He.
  destruct (Qlt_le_dec 0 (extent e a)) as [Hpos | Hneg].
  - destruct (positionPx_between e a Hpos). now apply div_between.
  - assert (Hlt : extent e a < 0).
    { apply Qle_lt_or_eq in Hneg. destruct Hneg; [assumption | contradiction]. }
    rewrite (positionPx_negative_extent e a Hlt).
    setoid_replace (extent e a / extent e a * 100) with 100 by (field; assumption).
    lra.
Qed.

Lemma updateInternalPosition_inRange e a s :
  zeroGeometry e = false -> inRange (fst (updateInternalPosition e a s)).
Proof.
  intro Hz. destruct (suppressed e a s) eqn:Hs.
  - rewrite updateInternalPosition_suppressed by assumption. simpl.
    apply suppressed_iff in Hs. destruct Hs as (_ & _ & [H | H] & _);
      unfold inRange; rewrite H; lra.
  - rewrite updateInternalPosition_applied by assumption. simpl.
    apply nextInternalPositionPc_between, Hz.
Qed.

Lemma updateInternalPosition_keeps_inRange e a s :
  inRange s -> inRange (fst (updateInternalPosition e a s)).
Proof.
  intro H. destruct (zeroGeometry e) eqn:Hz.
  - now rewrite updateInternalPosition_zero.
  - now apply updateInternalPosition_inRange.
Qed.

Lemma run_keeps_inRange calls :
  forall s, inRange s -> inRange (fst (run calls s)).
Proof.
  induction calls as [| [e a] rest IH]; intros s H; simpl; [assumption |].
  pose proof (updateInternalPosition_keeps_inRange e a s H) as H1.
  destruct (updateInternalPosition e a s) as [s1 fx1]. simpl in H1.
  specialize (IH s1 H1). destruct (run rest s1) as [s2 fx2]. exact IH.
Qed.

Lemma run_app calls1 calls2 s :
  fst (run (calls1 ++ calls2) s) = fst (run calls2 (fst (run calls1 s))).
Proof.
  revert s. induction calls1 as [| [e a] rest IH]; intro s; simpl; [reflexivity |].
  destruct (updateInternalPosition e a s) as [s1 fx1].
  specialize (IH s1).
  destruct (run (rest ++ calls2) s1) as [s2 fx2].
  destruct (run rest s1) as [s3 fx3]. simpl in *. exact IH.
Qed.

(** X18. For coordinates and geometry that are numbers (the rationals have no
    [NaN]; exact arithmetic): on a container of non-zero width and height,
    for every raw coordinate, however far outside the container, the
    percentage a pass computes lies in [0, 100], the percentage the slider
    holds after the pass lies in [0, 100], and so does the percentage held
    after any further such passes. *)
Theorem clamp_invariant (e : Env) (a : UpdateInternalPositionProps) (s : Slider) :
  zeroGeometry e = false ->
  (0 <= nextInternalPositionPc e a /\ nextInternalPositionPc e a <= 100)
  /\ inRange (fst (updateInternalPosition e a s))
  /\ forall before after,
       inRange (fst (run (before ++ (e, a) :: after) s)).
Proof.
  intro Hz. split; [| split].
  - now apply nextInternalPositionPc_between.
  - now apply updateInternalPosition_inRange.
  - intros before after. rewrite run_app.
    change ((e, a) :: after) with ([(e, a)] ++ after). rewrite run_app.
    apply run_keeps_inRange. simpl.
    pose proof (updateInternalPosition_inRange e a (fst (run before s)) Hz) as H.
    destruct (updateInternalPosition e a (fst (run before s))). exact H.
Qed.

Lemma noop_iff_suppressed e a s :
  zeroGeometry e = false ->
  noop s (updateInternalPosition e a s) <-> suppressed e a s = true.
Proof.
  intro Hz. destruct (suppressed e a s) eqn:Hs.
  - rewrite updateInternalPosition_suppressed by assumption.
    unfold noop; simpl. tauto.
  - rewrite updateInternalPosition_applied by assumption.
    unfold noop; simpl. split; [intros [_ H]; discriminate H | discriminate].
Qed.

Lemma far_edge_pc e a :
  zeroGeometry e = false -> extent e a <= rawPx e a ->
  nextInternalPositionPc e a == 100
  /\ adjustedPosition e a == adjustedExtent e a.
Proof.
  intros Hz Hfar.
  pose proof (extent_nonzero e a Hz) as He.
  pose proof (layoutExtent_nonzero e a) as Hl.
  pose proof (positionPx_far_edge e a Hfar) as Hp.
  split.
  - rewrite nextInternalPositionPc_eq, Hp by assumption. field. assumption.
  - rewrite adjustedPosition_eq, adjustedExtent_eq, Hp by assumption.
    field. assumption.
Qed.

(** After a pass with the pointer at or beyond the far edge, the same pass
    again is suppressed. *)
Lemma far_edge_then_suppressed e a s :
  zeroGeometry e = false -> extent e a <= rawPx e a ->
  let s1 := fst (updateInternalPosition e a s) in
  internalPositionPc s1 == 100 /\ suppressed e a s1 = true.
Proof.
  intros Hz Hfar. destruct (far_edge_pc e a Hz Hfar) as [Hpc Hpos].
  destruct (suppressed e a s) eqn:Hs.
  - rewrite updateInternalPosition_suppressed by assumption. simpl.
    split; [| assumption].
    apply suppressed_iff in Hs. destruct Hs as (_ & Hn & _).
    now rewrite <- Hn.
  - rewrite updateInternalPosition_applied by assumption. simpl.
    split; [assumption |].
    apply suppressed_iff; simpl.
    split; [reflexivity | split; [reflexivity | split; right; assumption]].
Qed.

Lemma run_repeat_suppressed e a s n :
  zeroGeometry e = false -> suppressed e a s = true ->
  run (repeat (e, a) n) s = (s, []).
Proof.
  intros Hz Hs. induction n as [| n IH]; simpl; [reflexivity |].
  rewrite updateInternalPosition_suppressed by assumption.
  now rewrite IH.
Qed.

(** C1. On a container of non-zero width and height a pass is a no-op (the
    stored percentage is the one before, no clip and no transform is written,
    [onPositionChange] is not called) if and only if [didSyncBounds] is
    already true, the computed percentage equals the stored one, the stored
    one is 0 or 100, and the scale-corrected pixel is 0 or the scale-corrected
    extent; a no-op leaves the whole state untouched.  In every other case
    the pass sets [didSyncBounds], stores the computed percentage, writes the
    clip and the transform and calls [onPositionChange] (when the host gave
    one) once.  The first pass after mount is never suppressed.  After a pass
    whose raw pixel is at or beyond the extent the stored percentage is 100,
    and any number of repetitions of that pass change nothing and call
    nothing. *)
Theorem suppression_rule (e : Env) (a : UpdateInternalPositionProps) (s : Slider) :
  zeroGeometry e = false ->
  let r := updateInternalPosition e a s in
  (noop s r <->
     didSyncBounds s = true
     /\ nextInternalPositionPc e a == internalPositionPc s
     /\ (internalPositionPc s == 0 \/ internalPositionPc s == 100)
     /\ (adjustedPosition e a == 0
         \/ adjustedPosition e a == adjustedExtent e a))
  /\ (noop s r -> r = (s, []))
  /\ (~ noop s r ->
      didSyncBounds (fst r) = true
      /\ internalPositionPc (fst r) = nextInternalPositionPc e a
      /\ snd r = clipStyle e a :: transformStyle e a
                 :: (if onPositionChange e
                     then [OnPositionChange (nextInternalPositionPc e a)]
                     else []))
  /\ (forall position,
        ~ noop (mount position) (updateInternalPosition e a (mount position)))
  /\ (extent e a <= rawPx e a ->
      internalPositionPc (fst r) == 100
      /\ forall n, run (repeat (e, a) n) (fst r) = (fst r, [])).
Proof.
  intros Hz r. subst r.
  split; [| split; [| split; [| split]]].
  - rewrite noop_iff_suppressed by assumption. apply suppressed_iff.
  - intro H. apply noop_iff_suppressed in H; [| assumption].
    now apply updateInternalPosition_suppressed.
  - intro H. destruct (suppressed e a s) eqn:Hs.
    + exfalso. apply H. now apply noop_iff_suppressed.
    + rewrite updateInternalPosition_applied by assumption. simpl. auto.
  - intros position H. apply noop_iff_suppressed in H; [| assumption].
    unfold suppressed, mount in H. simpl in H. discriminate H.
  - intro Hfar. split.
    + now apply far_edge_then_suppressed.
    + intros n. apply run_repeat_suppressed; [assumption |].
      now apply far_edge_then_suppressed.
Qed.

(** The suppression rule at work: on a 300 x 150 container a pointer-down
    at x = 500, beyond the right edge, stores 100; the same pass again, any
    number of times, does nothing. *)
Lemma suppression_rule_witness :
  let e := plainContainer 300 150 in
  let a := mkArgs 500 40 true false 0 in
  zeroGeometry e = false
  /\ extent e a <= rawPx e a
  /\ internalPositionPc (fst (updateInternalPosition e a (mount 50))) == 100
  /\ forall n,
       run (repeat (e, a) n) (fst (updateInternalPosition e a (mount 50)))
       = (fst (updateInternalPosition e a (mount 50)), []).
Proof.
  intros e a.
  assert (Hz : zeroGeometry e = false) by reflexivity.
  assert (Hfar : extent e a <= rawPx e a) by (vm_compute; discriminate).
  split; [exact Hz | split; [exact Hfar |]].
  exact (proj2 (proj2 (proj2 (proj2
           (suppression_rule e a (mount 50) Hz)))) Hfar).
Defined.

(** The clamp at work: a pointer far to the left of a 300 x 150
    container. *)
Lemma clamp_invariant_witness :
  let e := plainContainer 300 150 in
  let a := mkArgs (-100000) 40 true false 0 in
  zeroGeometry e = false
  /\ inRange (fst (updateInternalPosition e a (mount 50))).
Proof.
  intros e a. split; [reflexivity |].
  exact (proj1 (proj2 (clamp_invariant e a (mount 50) eq_refl))).
Defined.

(** ** The projected outputs *)




(** ** Percentage and zoom scale *)

Lemma layoutExtent_unscaled e a :
  zeroGeometry e = false ->
  offsetWidth (rootContainerRef e)
    == DOMRect.width (getBoundingClientRect (rootContainerRef e)) ->
  offsetHeight (rootContainerRef e)
    == DOMRect.height (getBoundingClientRect (rootContainerRef e)) ->
  layoutExtent e a == extent e a.
Proof.
  intros Hz Hw Hh.
  pose proof (width_nonzero e Hz) as Hwn. pose proof (height_nonzero e Hz) as Hhn.
  unfold layoutExtent, extent, js_or.
  destruct (portrait a).
  - destruct (offsetHeight (rootContainerRef e) === 0) eqn:E; [| assumption].
    apply js_eq_iff in E. rewrite E in Hh. exfalso. apply Hhn. now symmetry.
  - destruct (offsetWidth (rootContainerRef e) === 0) eqn:E; [| assumption].
    apply js_eq_iff in E. rewrite E in Hw. exfalso. apply Hwn. now symmetry.
Qed.

(** C4. On a container of non-zero size whose layout size equals its
    rendered size (no visual scaling) a pass computes the percentage
    (clamped pixel / extent) * 100, and the scale-corrected pixel and extent
    are the clamped pixel and the extent themselves.  Scenario A: a landscape
    slider without padding on a container 300 wide, wherever the container
    lies on the page and however the page is scrolled; a pointer-down at the
    container-relative x = 75 stores 25, sets the clip's right edge and the
    handle's x translation to 75 and notifies 25. *)
Theorem percentage_without_scaling :
  (forall (e : Env) (a : UpdateInternalPositionProps),
      zeroGeometry e = false ->
      offsetWidth (rootContainerRef e)
        == DOMRect.width (getBoundingClientRect (rootContainerRef e)) ->
      offsetHeight (rootContainerRef e)
        == DOMRect.height (getBoundingClientRect (rootContainerRef e)) ->
      nextInternalPositionPc e a == positionPx e a / extent e a * 100
      /\ adjustedPosition e a == positionPx e a
      /\ adjustedExtent e a == extent e a)
  /\ (forall top left scrollX scrollY pageY : Q,
         let e := mkEnv (mkDiv (DOMRect.mk top left 300 150) 300 150)
                        (mkWindow scrollX scrollY) true in
         let ev := mkPointer (75 + left + scrollX) pageY in
         let r := handlePointerDown e (Props.mk false 50 0) ev (mount 50) in
         internalPositionPc (fst r) == 25
         /\ isDragging (fst r) = true
         /\ Effects_eqb (snd r)
              [SetClip auto (px 75) auto auto; SetTransform 75 0 0;
               OnPositionChange 25] = true).
Proof.
  split.
  - intros e a Hz Hw Hh.
    pose proof (layoutExtent_unscaled e a Hz Hw Hh) as Hl.
    pose proof (extent_nonzero e a Hz) as He.
    split; [now apply nextInternalPositionPc_eq | split].
    + rewrite adjustedPosition_eq, Hl by assumption. field. assumption.
    + rewrite adjustedExtent_eq, Hl by assumption. reflexivity.
  - intros top left scrollX scrollY pageY e ev r.
    assert (Hz : zeroGeometry e = false) by reflexivity.
    assert (Hraw : rawPx e (pointerArgs (Props.mk false 50 0) ev) == 75).
    { unfold rawPx, pointerArgs, e, ev; simpl. ring. }
    assert (Hpos : positionPx e (pointerArgs (Props.mk false 50 0) ev) == 75).
    { unfold positionPx. rewrite Hraw. reflexivity. }
    assert (Hadj : adjustedPosition e (pointerArgs (Props.mk false 50 0) ev) == 75).
    { unfold adjustedPosition. rewrite Hpos. reflexivity. }
    assert (Hpc : nextInternalPositionPc e (pointerArgs (Props.mk false 50 0) ev) == 25).
    { unfold nextInternalPositionPc. rewrite Hadj. reflexivity. }
    assert (Hcl : clampedPx e (pointerArgs (Props.mk false 50 0) ev) == 75).
    { unfold clampedPx. rewrite Hadj. reflexivity. }
    subst r. unfold handlePointerDown.
    rewrite updateInternalPosition_applied by reflexivity.
    cbn [fst snd internalPositionPc isDragging setIsDragging onPositionChange e].
    split; [exact Hpc | split; [reflexivity |]].
    unfold clipStyle, transformStyle. 
    cbn [portrait pointerArgs Props.portrait Effects_eqb Effect_eqb Length_eqb].
    apply js_eq_iff in Hpc, Hcl. rewrite Hpc, Hcl. reflexivity.
Qed.

(** The unscaled percentage at work: a container 300 x 150, not
    scaled, and a container-relative x = 75. *)
Lemma percentage_without_scaling_witness :
  let e := plainContainer 300 150 in
  let a := mkArgs 75 40 false false 0 in
  zeroGeometry e = false
  /\ offsetWidth (rootContainerRef e)
       == DOMRect.width (getBoundingClientRect (rootContainerRef e))
  /\ offsetHeight (rootContainerRef e)
       == DOMRect.height (getBoundingClientRect (rootContainerRef e))
  /\ nextInternalPositionPc e a == positionPx e a / extent e a * 100.
Proof.
  intros e a.
  assert (Hz : zeroGeometry e = false) by reflexivity.
  assert (Hw : offsetWidth (rootContainerRef e)
               == DOMRect.width (getBoundingClientRect (rootContainerRef e)))
    by reflexivity.
  assert (Hh : offsetHeight (rootContainerRef e)
               == DOMRect.height (getBoundingClientRect (rootContainerRef e)))
    by reflexivity.
  split; [exact Hz | split; [exact Hw | split; [exact Hh |]]].
  exact (proj1 (proj1 percentage_without_scaling e a Hz Hw Hh)).
Defined.

(** The statement that the percentage is independent of the zoom scale fails
    on binary64 numbers: at x = 200 on a container 300 wide, a layout width
    of 300 gives a percentage that differs from the one a layout width of 100
    gives (the zoom scale does not cancel in the last place). *)
Lemma zoom_rounding_counterexample :
  let a := Binary64.mkArgs 200 0 false false 0 in
  let rect := Binary64.DOMRect.mk 0 0 300 150 in
  let e1 := Binary64.mkEnv (Binary64.mkDiv rect 300 150)
                           (Binary64.mkWindow 0 0) true in
  let e3 := Binary64.mkEnv (Binary64.mkDiv rect 100 50)
                           (Binary64.mkWindow 0 0) true in
  Binary64.positionPx e1 a = 200%float
  /\ Binary64.positionPx e3 a = 200%float
  /\ Binary64.nextInternalPositionPc e1 a = ((200 / 300) * 100)%float
  /\ Binary64.js_eq (Binary64.nextInternalPositionPc e3 a)
                    (Binary64.nextInternalPositionPc e1 a) = false
  /\ Binary64.js_eq (Binary64.nextInternalPositionPc e3 a)
                    ((200 / 300) * 100)%float = false.
Proof. vm_compute. repeat split; reflexivity. Qed.

(** C10, amended. In exact arithmetic, on a container of non-zero size and
    whatever the layout size the container reports, the percentage a pass
    computes is (clamped raw pixel / true extent) * 100: the zoom scale
    cancels, two passes that differ only in the reported layout size compute
    the same percentage, and the layout size shows only in the pixel output
    [clampedPx].  At the extremities the percentage is 0 (clamped pixel 0)
    and 100 (clamped pixel = extent) for every layout size.  In binary64 the
    cancellation is not exact in between: at x = 200 on a width of 300 the
    layout widths 300 and 100 give percentages that differ, while at x = 0
    and at x = 300 both give 0 and 100. *)
Theorem percentage_independent_of_zoom :
  (forall (e : Env) (a : UpdateInternalPositionProps),
      zeroGeometry e = false ->
      nextInternalPositionPc e a == positionPx e a / extent e a * 100
      /\ (forall ow oh : Q,
             positionPx (withLayout e ow oh) a = positionPx e a
             /\ nextInternalPositionPc (withLayout e ow oh) a
                == nextInternalPositionPc e a)
      /\ clampedPx e a ==
           clamp (positionPx e a * layoutExtent e a / extent e a)
                 (boundsPadding a) (layoutExtent e a - boundsPadding a)
      /\ (positionPx e a == 0 ->
          forall ow oh : Q, nextInternalPositionPc (withLayout e ow oh) a == 0)
      /\ (positionPx e a == extent e a ->
          forall ow oh : Q,
            nextInternalPositionPc (withLayout e ow oh) a == 100))
  /\ (let rect := Binary64.DOMRect.mk 0 0 300 150 in
      let e1 := Binary64.mkEnv (Binary64.mkDiv rect 300 150)
                               (Binary64.mkWindow 0 0) true in
      let e3 := Binary64.mkEnv (Binary64.mkDiv rect 100 50)
                               (Binary64.mkWindow 0 0) true in
      let at_ (v : float) := Binary64.mkArgs v 0 false false 0 in
      Binary64.js_eq (Binary64.nextInternalPositionPc e3 (at_ 200%float))
                     (Binary64.nextInternalPositionPc e1 (at_ 200%float)) = false
      /\ Binary64.nextInternalPositionPc e1 (at_ 0%float) = 0%float
      /\ Binary64.nextInternalPositionPc e3 (at_ 0%float) = 0%float
      /\ Binary64.nextInternalPositionPc e1 (at_ 300%float) = 100%float
      /\ Binary64.nextInternalPositionPc e3 (at_ 300%float) = 100%float).
Proof.
  split.
  - intros e a Hz.
    assert (Hind : forall ow oh : Q,
               nextInternalPositionPc (withLayout e ow oh) a
               == nextInternalPositionPc e a).
    { intros ow oh.
      assert (Hz' : zeroGeometry (withLayout e ow oh) = false) by exact Hz.
      rewrite (nextInternalPositionPc_eq _ a Hz'),
              (nextInternalPositionPc_eq e a Hz).
      reflexivity. }
    pose proof (extent_nonzero e a Hz) as He.
    split; [now apply nextInternalPositionPc_eq | split; [| split; [| split]]].
    + intros ow oh. split; [reflexivity | apply Hind].
    + unfold clampedPx, clamp.
      rewrite adjustedPosition_eq, adjustedExtent_eq by assumption.
      setoid_replace (0 + boundsPadding a) with (boundsPadding a) by ring.
      reflexivity.
    + intros H0 ow oh. rewrite Hind, nextInternalPositionPc_eq, H0 by assumption.
      field. assumption.
    + intros H1 ow oh. rewrite Hind, nextInternalPositionPc_eq, H1 by assumption.
      field. assumption.
  - vm_compute. repeat split; reflexivity.
Qed.

(** The cancelling zoom scale at work: a 300 x 400 rendering of
    a 150 x 200 layout. *)
Lemma percentage_independent_of_zoom_witness :
  let e := mkEnv (mkDiv (DOMRect.mk 8 8 300 400) 150 200) (mkWindow 0 30) true in
  let a := mkArgs 83 138 true false 10 in
  zeroGeometry e = false
  /\ nextInternalPositionPc e a == positionPx e a / extent e a * 100
  /\ nextInternalPositionPc (withLayout e 300 400) a
     == nextInternalPositionPc e a.
Proof.
  intros e a.
  assert (Hz : zeroGeometry e = false) by reflexivity.
  destruct (proj1 percentage_independent_of_zoom e a Hz) as (H1 & H2 & _).
  split; [exact Hz | split; [exact H1 | exact (proj2 (H2 300 400))]].
Defined.

(** ** Bounds padding *)







(** ** Degenerate geometry *)

Lemma zeroGeometry_iff e :
  zeroGeometry e = true <->
  DOMRect.width (getBoundingClientRect (rootContainerRef e)) == 0
  \/ DOMRect.height (getBoundingClientRect (rootContainerRef e)) == 0.
Proof. unfold zeroGeometry. now rewrite orb_true_iff, !js_eq_iff. Qed.

(** C8. When the measured width or height of the container is 0 a pass
    returns at once: the slider (percentage, [didSyncBounds], drag state) is
    the one before and nothing is written or notified; the pass is total, so
    no error arises.  The skip is recoverable: a later pass, on whatever
    geometry, does exactly what it would have done had the skipped pass not
    happened, and on a non-zero geometry a first pass after mount is carried
    out. *)
Theorem zero_geometry_skips (e : Env) (a : UpdateInternalPositionProps) (s : Slider) :
  DOMRect.width (getBoundingClientRect (rootContainerRef e)) == 0
  \/ DOMRect.height (getBoundingClientRect (rootContainerRef e)) == 0 ->
  updateInternalPosition e a s = (s, [])
  /\ (forall (e' : Env) (a' : UpdateInternalPositionProps),
         run [(e, a); (e', a')] s = updateInternalPosition e' a' s)
  /\ (forall (e' : Env) (a' : UpdateInternalPositionProps) (position : Q),
         zeroGeometry e' = false ->
         run [(e, a); (e', a')] (mount position) =
           (mkSlider (nextInternalPositionPc e' a') false true,
            clipStyle e' a' :: transformStyle e' a'
            :: (if onPositionChange e'
                then [OnPositionChange (nextInternalPositionPc e' a')]
                else []))).
Proof.
  intro H. apply zeroGeometry_iff in H.
  pose proof (updateInternalPosition_zero e a) as Hskip.
  split; [now apply Hskip | split].
  - intros e' a'. simpl. rewrite Hskip by assumption.
    destruct (updateInternalPosition e' a' s) as [s1 fx1]. simpl.
    now rewrite app_nil_r.
  - intros e' a' position Hz'. simpl. rewrite Hskip by assumption.
    rewrite updateInternalPosition_applied by (assumption || reflexivity).
    simpl. now rewrite app_nil_r.
Qed.

(** The early out at work: a container 300 wide and 0 high. *)
Lemma zero_geometry_skips_witness :
  let e := plainContainer 300 0 in
  let a := mkArgs 75 0 true false 0 in
  (DOMRect.width (getBoundingClientRect (rootContainerRef e)) == 0
   \/ DOMRect.height (getBoundingClientRect (rootContainerRef e)) == 0)
  /\ updateInternalPosition e a (mount 50) = (mount 50, []).
Proof.
  intros e a.
  assert (H : DOMRect.width (getBoundingClientRect (rootContainerRef e)) == 0
              \/ DOMRect.height (getBoundingClientRect (rootContainerRef e)) == 0)
    by (right; reflexivity).
  split; [exact H |].
  exact (proj1 (zero_geometry_skips e a (mount 50) H)).
Defined.

(** ** Resize *)






(** C2. A resize whose observed width is 0 while the bounding rectangle is
    not empty stores [NaN] as the percentage, writes [NaN] to the clip and to
    the transform and calls [onPositionChange] with [NaN]: the handler
    divides by the observed width, 0 / 0 is [NaN], and neither [Math.max]
    nor [Math.min] clamps it.  Here: a landscape slider mounted at 50 in a
    container whose bounding rectangle is 20 x 100 and whose observed content
    box is 0 x 80. *)
Theorem resize_zero_width_stores_nan :
  let p := Binary64.Props.mk false 50 0 in
  let e := Binary64.mkEnv
             (Binary64.mkDiv (Binary64.DOMRect.mk 0 0 20 100) 20 100)
             (Binary64.mkWindow 0 0) true in
  let s := fst (Binary64.propsEffect e p None (Binary64.mount 50)) in
  let r := Binary64.UseResizeObserverHandlerParams.mk 0 80 in
  s = Binary64.mkSlider 50 false true
  /\ Binary64.zeroGeometry e = false
  /\ is_nan (Binary64.x (Binary64.resizeArgs e p r s)) = true
  /\ is_nan (Binary64.positionPx e (Binary64.resizeArgs e p r s)) = true
  /\ Binary64.handleResize e p r s =
       (Binary64.mkSlider nan false true,
        [Binary64.SetClip Binary64.auto (Binary64.px nan) Binary64.auto
                          Binary64.auto;
         Binary64.SetTransform nan 0 0;
         Binary64.OnPositionChange nan])
  /\ (0 <=? Binary64.internalPositionPc (fst (Binary64.handleResize e p r s)))%float
     = false.
Proof. vm_compute. repeat split; reflexivity. Qed.

(** ** The window binding *)

Lemma add_bindings v :
  fold_left (fun l r => addEventListener r l) (bindings v) [] = bindings v.
Proof. reflexivity. Qed.

Lemma remove_bindings v :
  fold_left (fun l r => removeEventListener r l) (bindings v) (bindings v) = [].
Proof.
  unfold bindings, removeEventListener, Registration_eqb.
  repeat (simpl; rewrite ?Nat.eqb_refl). reflexivity.
Qed.


Lemma deps_eqb_iff d1 d2 : deps_eqb d1 d2 = true <-> d1 = d2.
Proof.
  destruct d1 as [v1 b1], d2 as [v2 b2]. unfold deps_eqb; simpl.
  rewrite andb_true_iff, Nat.eqb_eq, Bool.eqb_true_iff.
  split; [intros [-> ->]; reflexivity | intro H; inversion H; auto].
Qed.

Lemma mounted_invariant position v : bindingInvariant v (mounted position v).
Proof. unfold bindingInvariant, mounted. simpl. auto. Qed.

(** A commit from a state in which the binding agrees with the drag state
    [d] of the previous render. *)
Lemma commit_spec bound v s d :
  commit v (mkMounted s d (if d then bindings bound else []) (Some (bound, d)))
  = (mkMounted s (isDragging s) (if isDragging s then bindings v else [])
               (Some (v, isDragging s)),
     expectedCalls bound d (isDragging s) v).
Proof.
  unfold commit, deps_eqb, bindingCleanup, bindingEffect, expectedCalls.
  cbn [effectDeps slider hasWindowBinding windowListeners fst snd].
  destruct d, (isDragging s) eqn:Hd, (Nat.eqb bound v) eqn:Hv;
    try (apply Nat.eqb_eq in Hv; subst v);
    cbn [Bool.eqb andb negb effectDeps slider hasWindowBinding windowListeners
         fst snd app];
    rewrite ?remove_bindings, ?Hd;
    cbn [Bool.eqb andb negb effectDeps slider hasWindowBinding windowListeners
         fst snd app];
    rewrite ?add_bindings, ?app_nil_r; reflexivity.
Qed.

(** One event: the invariant is kept, the slider is what the handlers made
    of it, and the calls on [window] are the expected ones. *)
Lemma step_invariant bound ev m :
  bindingInvariant bound m ->
  bindingInvariant (version ev) (fst (step ev m))
  /\ slider (fst (step ev m)) = handler ev (slider m)
  /\ snd (step ev m) =
       expectedCalls bound (isDragging (slider m))
                     (isDragging (handler ev (slider m))) (version ev).
Proof.
  intros (Hdeps & Href & Hwin).
  destruct m as [s has win deps]. simpl in *. subst deps has win.
  unfold step. cbn [slider hasWindowBinding windowListeners effectDeps].
  rewrite commit_spec. unfold bindingInvariant. simpl. auto.
Qed.

Lemma steps_invariant evs :
  forall bound m,
    bindingInvariant bound m ->
    exists bound', bindingInvariant bound' (fst (steps evs m)).
Proof.
  induction evs as [| ev rest IH]; intros bound m H; simpl.
  - now exists bound.
  - destruct (step_invariant bound ev m H) as (H1 & _).
    destruct (step ev m) as [m1 calls1]. simpl in H1.
    destruct (IH _ _ H1) as [bound' H2].
    destruct (steps rest m1) as [m2 calls2]. now exists bound'.
Qed.






(** Scenario D, run: two quick down/up cycles on a 300 x 150 container.  The
    first pointer-down also sets [didSyncBounds], which re-creates the
    handlers (version 1). *)
Example drag_cycles :
  let e := plainContainer 300 150 in
  let p := Props.mk false 50 0 in
  let evs := [ pointerDown e p (mkPointer 75 40) 1;
               pointerMove e p (mkPointer 500 40) 1;
               pointerUp 1;
               pointerDown e p (mkPointer 10 40) 1;
               pointerUp 1 ] in
  snd (steps evs (mounted 50 0)) =
    map AddEventListener (bindings 1) ++ map RemoveEventListener (bindings 1)
    ++ map AddEventListener (bindings 1) ++ map RemoveEventListener (bindings 1)
  /\ windowListeners (fst (steps evs (mounted 50 0))) = []
  /\ hasWindowBinding (fst (steps evs (mounted 50 0))) = false.
Proof. vm_compute. repeat split; reflexivity. Qed.

(** Scenario C, run: the pointer held at x = 500 beyond the right edge of a
    container 300 wide; only the first of three moves notifies. *)
Example held_beyond_the_edge :
  let e := plainContainer 300 150 in
  let a := pointerArgs (Props.mk false 50 0) (mkPointer 500 40) in
  Effects_eqb (snd (run [(e, a); (e, a); (e, a)] (mount 50)))
    [SetClip auto (px 300) auto auto; SetTransform 300 0 0;
     OnPositionChange 100] = true.
Proof. reflexivity. Qed.

(** * Further properties of the component *)

(** ** The pass *)

Lemma updateInternalPosition_stores_next e a s :
  zeroGeometry e = false ->
  internalPositionPc (fst (updateInternalPosition e a s))
  == nextInternalPositionPc e a.
Proof.
  intro Hz. destruct (suppressed e a s) eqn:Hs.
  - rewrite updateInternalPosition_suppressed by assumption. simpl.
    apply suppressed_iff in Hs. destruct Hs as (_ & Hn & _). now symmetry.
  - rewrite updateInternalPosition_applied by assumption. reflexivity.
Qed.

Lemma updateInternalPosition_syncs e a s :
  zeroGeometry e = false ->
  didSyncBounds (fst (updateInternalPosition e a s)) = true.
Proof.
  intro Hz. destruct (suppressed e a s) eqn:Hs.
  - rewrite updateInternalPosition_suppressed by assumption. simpl.
    now apply suppressed_iff in Hs.
  - rewrite updateInternalPosition_applied by assumption. reflexivity.
Qed.

(** X1. After a pass on a non-zero geometry, whether it was suppressed or
    not, [didSyncBounds] is set and the stored percentage is the one this
    pass computed from its input: suppression never drops a change of the
    percentage. *)
Theorem pass_stores_computed (e : Env) (a : UpdateInternalPositionProps) (s : Slider) :
  zeroGeometry e = false ->
  internalPositionPc (fst (updateInternalPosition e a s))
  == nextInternalPositionPc e a
  /\ didSyncBounds (fst (updateInternalPosition e a s)) = true.
Proof.
  intro Hz. split.
  - now apply updateInternalPosition_stores_next.
  - now apply updateInternalPosition_syncs.
Qed.

Lemma pass_stores_computed_witness :
  let e := plainContainer 300 150 in
  let a := mkArgs 500 40 true false 0 in
  let s := fst (updateInternalPosition e a (mount 50)) in
  zeroGeometry e = false
  /\ suppressed e a s = true
  /\ internalPositionPc (fst (updateInternalPosition e a s))
     == nextInternalPositionPc e a.
Proof.
  intros e a s. split; [reflexivity | split; [reflexivity |]].
  exact (proj1 (pass_stores_computed e a s eq_refl)).
Defined.

Lemma positionPx_zero_iff e a :
  0 < extent e a -> (positionPx e a == 0 <-> rawPx e a <= 0).
Proof. intro H. unfold positionPx. split; intro H1; revert H1; minmax; lra. Qed.

Lemma positionPx_extent_iff e a :
  0 < extent e a -> (positionPx e a == extent e a <-> extent e a <= rawPx e a).
Proof. intro H. unfold positionPx. split; intro H1; revert H1; minmax; lra. Qed.

Lemma percentage_scale (u v : Q) :
  0 < v -> u == u / v * 100 * v * (1 # 100).
Proof. intro H. field. lra. Qed.

(** X2. On a container of positive size the percentage follows the pointer
    monotonically: of two pointers on the same axis the one further along
    gives the larger percentage (or the same).  The percentage is 0 exactly
    when the pointer is at or before the start of the container and 100
    exactly when it is at or beyond its end. *)
Theorem percentage_monotone (e : Env) (a1 a2 : UpdateInternalPositionProps) :
  zeroGeometry e = false ->
  0 < extent e a1 ->
  portrait a1 = portrait a2 ->
  (rawPx e a1 <= rawPx e a2 ->
   nextInternalPositionPc e a1 <= nextInternalPositionPc e a2)
  /\ (nextInternalPositionPc e a1 == 0 <-> rawPx e a1 <= 0)
  /\ (nextInternalPositionPc e a1 == 100 <-> extent e a1 <= rawPx e a1).
Proof.
  intros Hz Hpos Hp.
  assert (Hext : extent e a2 = extent e a1) by (unfold extent; now rewrite Hp).
  pose proof (percentage_scale (positionPx e a1) (extent e a1) Hpos) as E1.
  pose proof (percentage_scale (positionPx e a2) (extent e a1) Hpos) as E2.
  rewrite <- (nextInternalPositionPc_eq e a1 Hz) in E1.
  rewrite <- Hext in E2 at 1.
  rewrite <- (nextInternalPositionPc_eq e a2 Hz) in E2.
  pose proof (positionPx_zero_iff e a1 Hpos) as Z1.
  pose proof (positionPx_extent_iff e a1 Hpos) as X1.
  split; [| split].
  - intro Hle.
    assert (Hpx : positionPx e a1 <= positionPx e a2).
    { unfold positionPx. rewrite Hext. minmax; lra. }
    revert E1 E2 Hpx.
    generalize (positionPx e a1) (positionPx e a2)
               (nextInternalPositionPc e a1) (nextInternalPositionPc e a2).
    intros p1 p2 n1 n2 E1 E2 Hpx. nra.
  - rewrite <- Z1. revert E1.
    generalize (positionPx e a1) (nextInternalPositionPc e a1).
    intros p1 n1 E1. split; intro H; nra.
  - rewrite <- X1. revert E1.
    generalize (positionPx e a1) (nextInternalPositionPc e a1).
    intros p1 n1 E1. split; intro H; nra.
Qed.

Lemma percentage_monotone_witness :
  let e := plainContainer 300 150 in
  let a1 := mkArgs 75 40 true false 0 in
  let a2 := mkArgs 200 40 true false 0 in
  zeroGeometry e = false
  /\ 0 < extent e a1
  /\ portrait a1 = portrait a2
  /\ rawPx e a1 <= rawPx e a2
  /\ nextInternalPositionPc e a1 <= nextInternalPositionPc e a2.
Proof.
  intros e a1 a2.
  assert (Hpos : 0 < extent e a1) by reflexivity.
  assert (Hle : rawPx e a1 <= rawPx e a2) by (vm_compute; discriminate).
  split; [reflexivity | split; [exact Hpos | split; [reflexivity |]]].
  split; [exact Hle |].
  exact (proj1 (percentage_monotone e a1 a2 eq_refl Hpos eq_refl) Hle).
Defined.

Lemma positionMeetsBounds_iff e a :
  zeroGeometry e = false ->
  positionMeetsBounds e a = true <->
  nextInternalPositionPc e a == 0 \/ nextInternalPositionPc e a == 100.
Proof.
  intro Hz. pose proof (adjustedExtent_nonzero e a Hz) as Hne.
  assert (Hm : positionMeetsBounds e a = true <->
               adjustedPosition e a == 0
               \/ adjustedPosition e a == adjustedExtent e a).
  { unfold positionMeetsBounds, adjustedExtent.
    destruct (portrait a); now rewrite orb_true_iff, !js_eq_iff. }
  rewrite Hm. unfold nextInternalPositionPc.
  assert (Hadj : adjustedPosition e a
                 == adjustedPosition e a / adjustedExtent e a * 100
                    * adjustedExtent e a * (1 # 100))
    by (field; assumption).
  split; intros [H | H].
  - left. rewrite H. field. assumption.
  - right. rewrite H. field. assumption.
  - left. rewrite Hadj, H. ring.
  - right. rewrite Hadj, H. field.
Qed.

(** X3. On a non-zero geometry the pixel test of the second early out follows
    from the percentage test: the pixel is at 0 or at the extent exactly
    when the computed percentage is 0 or 100, so [canSkipPositionPc] implies
    [positionMeetsBounds] and a pass is suppressed exactly when
    [didSyncBounds] and [canSkipPositionPc] hold. *)
Theorem pixel_test_follows (e : Env) (a : UpdateInternalPositionProps) (s : Slider) :
  zeroGeometry e = false ->
  (positionMeetsBounds e a = true <->
   nextInternalPositionPc e a == 0 \/ nextInternalPositionPc e a == 100)
  /\ (canSkipPositionPc e a s = true -> positionMeetsBounds e a = true)
  /\ suppressed e a s = didSyncBounds s && canSkipPositionPc e a s.
Proof.
  intro Hz.
  assert (Himp : canSkipPositionPc e a s = true -> positionMeetsBounds e a = true).
  { intro H. apply positionMeetsBounds_iff; [assumption |].
    unfold canSkipPositionPc in H. apply andb_true_iff in H.
    destruct H as [H1 H2]. apply js_eq_iff in H1.
    apply orb_true_iff in H2. rewrite !js_eq_iff in H2.
    rewrite H1. exact H2. }
  split; [now apply positionMeetsBounds_iff | split; [exact Himp |]].
  unfold suppressed.
  destruct (didSyncBounds s); simpl; [| reflexivity].
  destruct (canSkipPositionPc e a s); simpl; [| reflexivity].
  now apply Himp.
Qed.

Lemma pixel_test_follows_witness :
  let e := plainContainer 300 150 in
  let a := mkArgs 500 40 true false 0 in
  let s := fst (updateInternalPosition e a (mount 50)) in
  zeroGeometry e = false
  /\ canSkipPositionPc e a s = true
  /\ positionMeetsBounds e a = true.
Proof.
  intros e a s.
  assert (Hc : canSkipPositionPc e a s = true) by reflexivity.
  split; [reflexivity | split; [exact Hc |]].
  exact (proj1 (proj2 (pixel_test_follows e a s eq_refl)) Hc).
Defined.

(** X4. The same pass twice is the same pass once, as far as the state goes:
    the second pass leaves the slider as the first left it, and it either
    does nothing or repeats the writes and the notification of the first. *)
Theorem pass_idempotent (e : Env) (a : UpdateInternalPositionProps) (s : Slider) :
  let r1 := updateInternalPosition e a s in
  let r2 := updateInternalPosition e a (fst r1) in
  fst r2 = fst r1 /\ (snd r2 = [] \/ snd r2 = snd r1).
Proof.
  intros r1 r2. subst r1 r2.
  destruct (zeroGeometry e) eqn:Hz.
  - rewrite (updateInternalPosition_zero e a s) by assumption. simpl.
    rewrite updateInternalPosition_zero by assumption. auto.
  - destruct (suppressed e a s) eqn:Hs.
    + rewrite (updateInternalPosition_suppressed e a s) by assumption. simpl.
      rewrite updateInternalPosition_suppressed by assumption. auto.
    + rewrite (updateInternalPosition_applied e a s) by assumption. simpl.
      set (s1 := mkSlider (nextInternalPositionPc e a) (isDragging s) true).
      destruct (suppressed e a s1) eqn:Hs1.
      * rewrite updateInternalPosition_suppressed by assumption. auto.
      * rewrite updateInternalPosition_applied by assumption. auto.
Qed.

Lemma carriedOut_false e a s :
  carriedOut e a s = false -> updateInternalPosition e a s = (s, []).
Proof.
  unfold carriedOut. intro H. destruct (zeroGeometry e) eqn:Hz.
  - now apply updateInternalPosition_zero.
  - apply updateInternalPosition_suppressed; [assumption |].
    simpl in H. now apply negb_false_iff in H.
Qed.

Lemma carriedOut_true e a s :
  carriedOut e a s = true ->
  updateInternalPosition e a s =
    (mkSlider (nextInternalPositionPc e a) (isDragging s) true,
     clipStyle e a :: transformStyle e a
     :: (if onPositionChange e
         then [OnPositionChange (nextInternalPositionPc e a)] else [])).
Proof.
  unfold carriedOut. intro H. apply andb_true_iff in H. destruct H as [H1 H2].
  apply negb_true_iff in H1, H2. now apply updateInternalPosition_applied.
Qed.

(** X5. No sequence of passes touches the drag state, and [didSyncBounds] is
    true after it exactly when it was true before or at least one pass of
    the sequence got past both early outs: the flag is never reset. *)
Theorem passes_frame (calls : list (Env * UpdateInternalPositionProps)) (s : Slider) :
  isDragging (fst (run calls s)) = isDragging s
  /\ didSyncBounds (fst (run calls s))
     = didSyncBounds s || negb (Nat.eqb (countCarriedOut calls s) 0).
Proof.
  revert s. induction calls as [| [e a] rest IH]; intro s; simpl.
  - now rewrite orb_false_r.
  - destruct (carriedOut e a s) eqn:Hc.
    + rewrite (carriedOut_true e a s Hc) in *. simpl.
      destruct (IH (mkSlider (nextInternalPositionPc e a) (isDragging s) true))
        as [H1 H2].
      destruct (run rest _) as [s2 fx2]. simpl in *.
      rewrite H1, H2. now rewrite orb_true_r.
    + rewrite (carriedOut_false e a s Hc) in *. simpl.
      destruct (IH s) as [H1 H2].
      destruct (run rest s) as [s2 fx2]. simpl in *. auto.
Qed.

Lemma notifications_app fx1 fx2 :
  notifications (fx1 ++ fx2) = notifications fx1 ++ notifications fx2.
Proof.
  induction fx1 as [| f rest IH]; simpl; [reflexivity |].
  destruct f; simpl; now rewrite IH.
Qed.

Lemma run_cons e a rest s :
  run ((e, a) :: rest) s =
    (fst (run rest (fst (updateInternalPosition e a s))),
     snd (updateInternalPosition e a s)
     ++ snd (run rest (fst (updateInternalPosition e a s)))).
Proof.
  simpl. destruct (updateInternalPosition e a s) as [s1 fx1]. simpl.
  now destruct (run rest s1).
Qed.

(** X6. Over any sequence of passes the clip and the transform are written
    equally often, once each for every pass that got past both early outs,
    and [onPositionChange] is called once for each of those passes whose host
    gave a callback: nothing else is written or called. *)
Theorem effects_accounting
        (calls : list (Env * UpdateInternalPositionProps)) (s : Slider) :
  let fx := snd (run calls s) in
  length (filter isClip fx) = countCarriedOut calls s
  /\ length (filter isTransform fx) = countCarriedOut calls s
  /\ length (filter isNotification fx) = countNotified calls s
  /\ length fx = (2 * countCarriedOut calls s + countNotified calls s)%nat.
Proof.
  revert s. induction calls as [| [e a] rest IH]; intro s.
  - simpl. auto.
  - rewrite run_cons. cbn [snd countCarriedOut countNotified].
    rewrite !filter_app, !length_app.
    destruct (IH (fst (updateInternalPosition e a s))) as (H1 & H2 & H3 & H4).
    cbv zeta in H1, H2, H3, H4. rewrite H1, H2, H3, H4.
    destruct (carriedOut e a s) eqn:Hc.
    + rewrite (carriedOut_true e a s Hc). cbn [fst snd andb].
      unfold clipStyle, transformStyle.
      destruct (portrait a), (onPositionChange e); simpl; repeat split; lia.
    + rewrite (carriedOut_false e a s Hc). simpl. repeat split; lia.
Qed.

(** X7. For coordinates and geometry that are numbers (the rationals have no
    [NaN]; exact arithmetic): whatever the sequence of passes, every value
    [onPositionChange] is called with lies in [0, 100]. *)
Theorem notifications_in_range
        (calls : list (Env * UpdateInternalPositionProps)) (s : Slider) :
  Forall (fun v : Q => 0 <= v /\ v <= 100) (notifications (snd (run calls s))).
Proof.
  revert s. induction calls as [| [e a] rest IH]; intro s.
  - constructor.
  - rewrite run_cons. cbn [snd]. rewrite notifications_app.
    apply Forall_app. split; [| apply IH].
    destruct (carriedOut e a s) eqn:Hc.
    + rewrite (carriedOut_true e a s Hc). cbn [snd].
      assert (Hz : zeroGeometry e = false).
      { unfold carriedOut in Hc. apply andb_true_iff in Hc.
        now apply negb_true_iff. }
      unfold clipStyle, transformStyle.
      destruct (portrait a), (onPositionChange e); simpl; constructor;
        try constructor; now apply nextInternalPositionPc_between.
    + rewrite (carriedOut_false e a s Hc). constructor.
Qed.

(** ** Padding and layout edge cases *)







(** X10. When the layout size along the active axis is 0 while the rendered size
    is not, the guard [|| 1] takes over: the zoom scale is the rendered
    extent, the scale-corrected extent is 1 and the scale-corrected pixel is
    the fraction (clamped pixel / extent); the percentage is unaffected. *)
Theorem zero_layout_extent (e : Env) (a : UpdateInternalPositionProps) :
  zeroGeometry e = false ->
  (if portrait a
   then offsetHeight (rootContainerRef e)
   else offsetWidth (rootContainerRef e)) == 0 ->
  zoomScale e a == extent e a
  /\ adjustedExtent e a == 1
  /\ adjustedPosition e a == positionPx e a / extent e a
  /\ nextInternalPositionPc e a == positionPx e a / extent e a * 100.
Proof.
  intros Hz H0.
  pose proof (extent_nonzero e a Hz) as He.
  assert (Hl : layoutExtent e a == 1).
  { unfold layoutExtent, js_or. destruct (portrait a);
      apply js_eq_iff in H0; now rewrite H0. }
  split; [| split; [| split]].
  - rewrite zoomScale_eq, Hl. field.
  - rewrite adjustedExtent_eq, Hl by assumption. reflexivity.
  - rewrite adjustedPosition_eq, Hl by assumption. field. assumption.
  - now apply nextInternalPositionPc_eq.
Qed.

Lemma zero_layout_extent_witness :
  let e := mkEnv (mkDiv (DOMRect.mk 0 0 300 150) 0 0) (mkWindow 0 0) true in
  let a := mkArgs 75 40 false false 0 in
  zeroGeometry e = false
  /\ offsetWidth (rootContainerRef e) == 0
  /\ adjustedExtent e a == 1
  /\ adjustedPosition e a == positionPx e a / extent e a.
Proof.
  intros e a.
  assert (H0 : offsetWidth (rootContainerRef e) == 0) by reflexivity.
  split; [reflexivity | split; [exact H0 |]].
  destruct (zero_layout_extent e a eq_refl H0) as (_ & H1 & H2 & _).
  split; [exact H1 | exact H2].
Defined.

(** ** The pointer handlers *)

Lemma js_eq_compat (u u' v v' : Q) :
  u == u' -> v == v' -> (u === v) = (u' === v').
Proof.
  intros Hu Hv. destruct (u' === v') eqn:E.
  - apply js_eq_iff in E. apply js_eq_iff. now rewrite Hu, Hv.
  - apply js_eq_false_iff in E. apply js_eq_false_iff.
    intro H. apply E. now rewrite <- Hu, <- Hv.
Qed.

(** X14. Only the pointer's place relative to the container counts.  Two pointer
    events on containers of the same size, wherever each container lies on
    the page and however each page is scrolled, that are at the same offset
    from their container's corner lead to the same pass: the same stored
    percentage, the same flags, the same writes and the same notification. *)
Theorem pointer_is_container_relative
        (w h ow oh : Q) (cb : bool) (p : Props.t) (s : Slider)
        (top1 left1 scrollX1 scrollY1 top2 left2 scrollX2 scrollY2 : Q)
        (ev1 ev2 : PointerEvent) :
  let e1 := mkEnv (mkDiv (DOMRect.mk top1 left1 w h) ow oh)
                  (mkWindow scrollX1 scrollY1) cb in
  let e2 := mkEnv (mkDiv (DOMRect.mk top2 left2 w h) ow oh)
                  (mkWindow scrollX2 scrollY2) cb in
  pageX ev1 - left1 - scrollX1 == pageX ev2 - left2 - scrollX2 ->
  pageY ev1 - top1 - scrollY1 == pageY ev2 - top2 - scrollY2 ->
  let r1 := handlePointerMove e1 p ev1 s in
  let r2 := handlePointerMove e2 p ev2 s in
  internalPositionPc (fst r1) == internalPositionPc (fst r2)
  /\ isDragging (fst r1) = isDragging (fst r2)
  /\ didSyncBounds (fst r1) = didSyncBounds (fst r2)
  /\ Effects_eqb (snd r1) (snd r2) = true.
Proof.
  intros e1 e2 Hx Hy r1 r2. subst r1 r2. unfold handlePointerMove.
  set (a1 := pointerArgs p ev1). set (a2 := pointerArgs p ev2).
  assert (Hraw : rawPx e1 a1 == rawPx e2 a2).
  { unfold rawPx, a1, a2, pointerArgs, e1, e2. simpl.
    destruct (Props.portrait p); assumption. }
  assert (Hpos : positionPx e1 a1 == positionPx e2 a2).
  { unfold positionPx. rewrite Hraw. reflexivity. }
  assert (Hadj : adjustedPosition e1 a1 == adjustedPosition e2 a2).
  { unfold adjustedPosition. rewrite Hpos. reflexivity. }
  assert (Hnext : nextInternalPositionPc e1 a1 == nextInternalPositionPc e2 a2).
  { unfold nextInternalPositionPc. rewrite Hadj. reflexivity. }
  assert (Hcl : clampedPx e1 a1 == clampedPx e2 a2).
  { unfold clampedPx. rewrite Hadj. reflexivity. }
  assert (Hmeets : positionMeetsBounds e1 a1 = positionMeetsBounds e2 a2).
  { unfold positionMeetsBounds.
    change (portrait a2) with (portrait a1).
    destruct (portrait a1);
      rewrite (js_eq_compat _ _ 0 0 Hadj (Qeq_refl 0));
      f_equal; apply js_eq_compat; (assumption || reflexivity). }
  assert (Hskip : canSkipPositionPc e1 a1 s = canSkipPositionPc e2 a2 s).
  { unfold canSkipPositionPc. f_equal.
    apply js_eq_compat; [assumption | reflexivity]. }
  unfold updateInternalPosition.
  change (zeroGeometry e2) with (zeroGeometry e1).
  destruct (zeroGeometry e1); [simpl; repeat split; reflexivity |].
  rewrite Hmeets, Hskip.
  destruct (didSyncBounds s && canSkipPositionPc e2 a2 s
            && positionMeetsBounds e2 a2);
    [simpl; repeat split; reflexivity |].
  cbn [fst snd internalPositionPc isDragging didSyncBounds
       setInternalPositionPc setDidSyncBounds].
  split; [exact Hnext | split; [reflexivity | split; [reflexivity |]]].
  apply js_eq_iff in Hnext, Hcl.
  unfold clipStyle, transformStyle.
  change (portrait a2) with (portrait a1).
  change (onPositionChange e2) with (onPositionChange e1).
  destruct (portrait a1), (onPositionChange e1); simpl;
    rewrite ?Hcl, ?Hnext; reflexivity.
Qed.

Lemma pointer_is_container_relative_witness :
  let p := Props.mk false 50 10 in
  let e1 := mkEnv (mkDiv (DOMRect.mk 0 0 300 150) 150 75) (mkWindow 0 0) true in
  let e2 := mkEnv (mkDiv (DOMRect.mk 40 20 300 150) 150 75) (mkWindow 600 15) true in
  let ev1 := mkPointer 75 40 in
  let ev2 := mkPointer 695 95 in
  pageX ev1 - 0 - 0 == pageX ev2 - 20 - 600
  /\ pageY ev1 - 0 - 0 == pageY ev2 - 40 - 15
  /\ Effects_eqb (snd (handlePointerMove e1 p ev1 (mount 50)))
                 (snd (handlePointerMove e2 p ev2 (mount 50))) = true.
Proof.
  intros p e1 e2 ev1 ev2.
  assert (Hx : pageX ev1 - 0 - 0 == pageX ev2 - 20 - 600) by reflexivity.
  assert (Hy : pageY ev1 - 0 - 0 == pageY ev2 - 40 - 15) by reflexivity.
  split; [exact Hx | split; [exact Hy |]].
  exact (proj2 (proj2 (proj2
    (pointer_is_container_relative 300 150 150 75 true p (mount 50)
       0 0 0 0 40 20 600 15 ev1 ev2 Hx Hy)))).
Defined.

(** ** The calls on [window], counted *)

Lemma steps_cons ev rest m :
  steps (ev :: rest) m =
    (fst (steps rest (fst (step ev m))),
     snd (step ev m) ++ snd (steps rest (fst (step ev m)))).
Proof.
  simpl. destruct (step ev m) as [m1 calls1]. simpl.
  now destruct (steps rest m1).
Qed.

Lemma expectedCalls_balance bound before after v :
  (length (filter isAdd (expectedCalls bound before after v))
   + (if before then 4 else 0)
   = length (filter isRemove (expectedCalls bound before after v))
     + (if after then 4 else 0))%nat.
Proof.
  unfold expectedCalls.
  destruct before, after; try reflexivity.
  destruct (Nat.eqb bound v); reflexivity.
Qed.

Lemma steps_balance evs :
  forall bound m,
    bindingInvariant bound m ->
    (length (filter isAdd (snd (steps evs m)))
     + (if isDragging (slider m) then 4 else 0)
     = length (filter isRemove (snd (steps evs m)))
       + (if isDragging (slider (fst (steps evs m))) then 4 else 0))%nat.
Proof.
  induction evs as [| ev rest IH]; intros bound m Hinv; [reflexivity |].
  rewrite steps_cons. cbn [fst snd].
  destruct (step_invariant bound ev m Hinv) as (Hinv1 & Hs & Hcalls).
  specialize (IH _ _ Hinv1). rewrite Hs in IH.
  rewrite !filter_app, !length_app, Hcalls.
  pose proof (expectedCalls_balance bound (isDragging (slider m))
                (isDragging (handler ev (slider m))) (version ev)).
  lia.
Qed.

(** X15. Over the whole life of a mounted component, whatever the events, every
    listener added to [window] is removed again except the four that are
    bound while a drag is in progress: the number of [addEventListener] calls
    is the number of [removeEventListener] calls plus the number of listeners
    [window] still holds, which is 4 while dragging and 0 while idle. *)
Theorem window_calls_balance (position : Q) (v0 : nat) (evs : list Event) :
  let r := steps evs (mounted position v0) in
  length (filter isAdd (snd r))
  = (length (filter isRemove (snd r)) + length (windowListeners (fst r)))%nat
  /\ length (windowListeners (fst r))
     = (if isDragging (slider (fst r)) then 4 else 0)%nat.
Proof.
  intro r. subst r.
  pose proof (steps_balance evs v0 _ (mounted_invariant position v0)) as Hb.
  destruct (steps_invariant evs v0 _ (mounted_invariant position v0))
    as (bound & _ & _ & Hwin).
  assert (Hlen : length (windowListeners (fst (steps evs (mounted position v0))))
                 = (if isDragging (slider (fst (steps evs (mounted position v0))))
                    then 4 else 0)%nat).
  { rewrite Hwin.
    destruct (isDragging (slider (fst (steps evs (mounted position v0)))));
      reflexivity. }
  split; [| exact Hlen].
  rewrite Hlen. simpl in Hb. lia.
Qed.

(** ** Hover mode *)

Lemma Hover_Deps_eqb_eq d1 d2 : Hover.Deps_eqb d1 d2 = true -> d1 = d2.
Proof.
  destruct d1 as [h1 v1 g1], d2 as [h2 v2 g2]. unfold Hover.Deps_eqb. simpl.
  rewrite !andb_true_iff, Nat.eqb_eq, !Bool.eqb_true_iff.
  intros [[-> ->] ->]. reflexivity.
Qed.

Lemma Hover_remove_pair d n :
  fold_left (fun l r => Hover.removeEventListener r l) (Hover.pair d n)
            (Hover.pair d n) = [].
Proof.
  unfold Hover.pair, Hover.removeEventListener, Hover.Registration_eqb.
  repeat (simpl; rewrite ?Nat.eqb_refl, ?Bool.eqb_reflx). reflexivity.
Qed.

Lemma Hover_commit_spec d0 n0 d c :
  Hover.invariant d0 n0 c ->
  Hover.Deps_eqb d0 d = false ->
  Hover.commit d c =
    (Hover.mkContainer
       (if Hover.changePositionOnHover d then Hover.pair d (S n0) else [])
       (Some (d, S n0)),
     map Hover.RemoveEventListener (Hover.pair d0 n0)
     ++ (if Hover.changePositionOnHover d
         then map Hover.AddEventListener (Hover.pair d (S n0)) else [])).
Proof.
  intros [Hlast Hl] Hne. destruct c as [l last]. simpl in *. subst l last.
  unfold Hover.commit, Hover.cleanup, Hover.effect.
  cbn [Hover.lastRun Hover.listeners]. rewrite Hne.
  destruct (Hover.changePositionOnHover d0).
  - rewrite Hover_remove_pair. cbn [Hover.lastRun Hover.listeners].
    destruct (Hover.changePositionOnHover d); reflexivity.
  - cbn [Hover.lastRun Hover.listeners].
    destruct (Hover.changePositionOnHover d); reflexivity.
Qed.

Lemma Hover_commit_invariant d0 n0 d c :
  Hover.invariant d0 n0 c ->
  exists n, Hover.invariant d n (fst (Hover.commit d c)) /\ (n <= S n0)%nat.
Proof.
  intro Hinv. destruct (Hover.Deps_eqb d0 d) eqn:E.
  - apply Hover_Deps_eqb_eq in E. subst d0. exists n0.
    destruct Hinv as [Hlast Hl]. unfold Hover.commit. rewrite Hlast.
    assert (Hrefl : Hover.Deps_eqb d d = true).
    { destruct d. unfold Hover.Deps_eqb. simpl.
      now rewrite Nat.eqb_refl, !Bool.eqb_reflx. }
    rewrite Hrefl. simpl. split; [split; assumption | lia].
  - exists (S n0). rewrite (Hover_commit_spec d0 n0 d c Hinv E).
    split; [split; reflexivity | lia].
Qed.

Lemma last_cons_any {A : Type} (l : list A) :
  forall a d : A, last (a :: l) d = last l a.
Proof.
  induction l as [| b l IH]; intros a d; [reflexivity |].
  change (last (a :: b :: l) d) with (last (b :: l) d).
  now rewrite (IH b d), (IH b a).
Qed.

Lemma Hover_commits_invariant ds :
  forall d0 n0 c,
    Hover.invariant d0 n0 c ->
    exists n, Hover.invariant (last ds d0) n (fst (Hover.commits ds c))
              /\ (n <= n0 + length ds)%nat.
Proof.
  induction ds as [| d rest IH]; intros d0 n0 c Hinv.
  - exists n0. simpl. split; [assumption | lia].
  - destruct (Hover_commit_invariant d0 n0 d c Hinv) as (n1 & Hinv1 & Hn1).
    destruct (IH d n1 _ Hinv1) as (n & Hinv2 & Hn).
    exists n. cbn [Hover.commits].
    destruct (Hover.commit d c) as [c1 calls1]. cbn [fst] in *.
    destruct (Hover.commits rest c1) as [c2 calls2]. cbn [fst] in *.
    split; [| simpl; lia].
    rewrite last_cons_any. exact Hinv2.
Qed.

(** X16. Hover mode never piles up listeners.  After the mount render and any
    further renders, the container holds exactly two listeners of this effect
    when [changePositionOnHover] is on in the last render (the current
    [handlePointerMove] for mousemove and a [handleMouseLeave] that closed
    over the current [isDragging] for mouseleave) and none when it is off;
    unmounting removes them. *)
Theorem hover_listeners_lifecycle (d0 : Hover.Deps) (ds : list Hover.Deps) :
  let c := fst (Hover.commits (d0 :: ds) (Hover.mkContainer [] None)) in
  let d := last ds d0 in
  exists n : nat,
    Hover.listeners c =
      (if Hover.changePositionOnHover d
       then [ (Hover.mousemove,
               Hover.HandlePointerMove (Hover.handlePointerMove d));
              (Hover.mouseleave,
               Hover.HandleMouseLeave n (Hover.isDragging d)) ]
       else [])
    /\ Hover.lastRun c = Some (d, n)
    /\ (n <= length ds)%nat
    /\ Hover.listeners (fst (Hover.unmount c)) = [].
Proof.
  intros c d. subst c d. cbn [Hover.commits].
  assert (H0 : Hover.invariant d0 0
                 (fst (Hover.commit d0 (Hover.mkContainer [] None)))).
  { unfold Hover.commit, Hover.effect, Hover.invariant. simpl.
    destruct (Hover.changePositionOnHover d0); simpl; auto. }
  destruct (Hover_commits_invariant ds d0 0%nat _ H0) as (n & [Hlast Hl] & Hn).
  destruct (Hover.commit d0 (Hover.mkContainer [] None)) as [c1 calls1].
  cbn [fst] in *.
  destruct (Hover.commits ds c1) as [c2 calls2]. cbn [fst] in *.
  exists n. split; [exact Hl | split; [exact Hlast | split; [exact Hn |]]].
  unfold Hover.unmount, Hover.cleanup. rewrite Hlast. cbn [fst Hover.listeners].
  rewrite Hl. destruct (Hover.changePositionOnHover (last ds d0)).
  - apply Hover_remove_pair.
  - reflexivity.
Qed.

(** ** Suppression is for the extremities only *)

Lemma midrange_not_suppressed e a s :
  0 < nextInternalPositionPc e a -> nextInternalPositionPc e a < 100 ->
  suppressed e a s = false.
Proof.
  intros H0 H1. destruct (suppressed e a s) eqn:Hs; [| reflexivity].
  apply suppressed_iff in Hs. destruct Hs as (_ & Hn & [H | H] & _);
    rewrite H in Hn; lra.
Qed.

(** X17. A pass whose percentage lies strictly between 0 and 100 is never
    suppressed, not even when it repeats the stored percentage: on a non-zero
    geometry the same mid-range pass made n times in a row writes the clip
    and the transform n times and, when the host gave a callback, calls
    [onPositionChange] n times with the same value. *)
Theorem midrange_always_notifies (e : Env) (a : UpdateInternalPositionProps) :
  zeroGeometry e = false ->
  0 < nextInternalPositionPc e a ->
  nextInternalPositionPc e a < 100 ->
  forall (s : Slider) (n : nat),
    snd (run (repeat (e, a) n) s) =
      concat (repeat (clipStyle e a :: transformStyle e a
                      :: (if onPositionChange e
                          then [OnPositionChange (nextInternalPositionPc e a)]
                          else []))
                     n)
    /\ (onPositionChange e = true ->
        notifications (snd (run (repeat (e, a) n) s))
        = repeat (nextInternalPositionPc e a) n).
Proof.
  intros Hz H0 H1 s n. revert s.
  induction n as [| n IH]; intro s; [simpl; auto |].
  cbn [repeat]. rewrite run_cons.
  rewrite (updateInternalPosition_applied e a s Hz
             (midrange_not_suppressed e a s H0 H1)).
  cbn [fst snd concat].
  destruct (IH (mkSlider (nextInternalPositionPc e a) (isDragging s) true))
    as [IH1 IH2].
  split.
  - now rewrite IH1.
  - intro Hcb. rewrite notifications_app, (IH2 Hcb), Hcb.
    unfold clipStyle, transformStyle. destruct (portrait a); reflexivity.
Qed.

Lemma midrange_always_notifies_witness :
  let e := plainContainer 300 150 in
  let a := mkArgs 75 40 true false 0 in
  zeroGeometry e = false
  /\ 0 < nextInternalPositionPc e a
  /\ nextInternalPositionPc e a < 100
  /\ notifications (snd (run (repeat (e, a) 3) (mount 50)))
     = repeat (nextInternalPositionPc e a) 3.
Proof.
  intros e a.
  assert (H0 : 0 < nextInternalPositionPc e a) by reflexivity.
  assert (H1 : nextInternalPositionPc e a < 100) by reflexivity.
  split; [reflexivity | split; [exact H0 | split; [exact H1 |]]].
  exact (proj2 (midrange_always_notifies e a eq_refl H0 H1 (mount 50) 3%nat)
               eq_refl).
Defined.
